(** * Wi-Fi dashboard monitor (wifi.py): model and verified properties

    A shallow embedding of the monitoring core of [wifi.py]: the prober
    [ping_latency] with its two latency patterns, the SSID lookup, the
    speed-test gateway with [compute_health], and the scheduler
    [monitor_loop] with its bounded per-target history.

    Conventions of the embedding.
    - Python [None] is [option]'s [None].
    - A Python number (an [int] or a [float]) is a [pynum]: an exact
      rational, one of the two infinities, or NaN.  Every finite double and
      every integer is such a rational, and comparisons are exact on them.
      In the prober a [float] is a double: [float(text)] and the float
      operations on the timeout give the nearest double, [round_double].
      The division and the decimal rounding of the speed-test gateway are
      given by their exact value, which Python rounds to the nearest double.
    - Text is [string] with one [ascii] per code point, so the model covers
      text whose code points are below 256.
    - What the operating system answers (the platform name, the outcome of a
      subprocess, the clock) is an explicit argument. *)

From Stdlib Require Import ZArith QArith Qabs Qround Qpower Lqa Ascii String List Lia.
From stdpp Require Import gmap strings list fin_maps pretty.
Import ListNotations.

Local Open Scope string_scope.
Local Open Scope list_scope.
Local Open Scope nat_scope.

(** ** Numbers *)

Inductive pynum :=
| Num (q : Q)
| PosInf
| NegInf
| NaN.

(** Python's [x >= n] for an integer literal [n]. *)
Definition py_ge (x : pynum) (n : Z) : bool :=
  match x with
  | Num q => Qle_bool (inject_Z n) q
  | PosInf => true
  | NegInf => false
  | NaN => false
  end.

(** The mathematical order of the extended reals, NaN being unordered. *)
Definition num_le (x y : pynum) : Prop :=
  match x, y with
  | Num a, Num b => (a <= b)%Q
  | Num _, PosInf => True
  | NegInf, Num _ => True
  | NegInf, NegInf => True
  | NegInf, PosInf => True
  | PosInf, PosInf => True
  | _, _ => False
  end.

Definition num_lt (x y : pynum) : Prop :=
  match x, y with
  | Num a, Num b => (a < b)%Q
  | Num _, PosInf => True
  | NegInf, Num _ => True
  | NegInf, PosInf => True
  | _, _ => False
  end.

(** Rounding to the nearest integer, ties to even. *)
Definition round_half_even (y : Q) : Z :=
  let f := Qfloor y in
  match (y - inject_Z f ?= 1 # 2)%Q with
  | Lt => f
  | Gt => (f + 1)%Z
  | Eq => if Z.even f then f else (f + 1)%Z
  end.

(** *** Doubles

    A [float] is an IEEE 754 double: 53 bits of precision, the largest
    exponent 1023, subnormals down to [2 ^ -1074].  [round_double q] is the
    double nearest to [q], ties to the even mantissa, and an infinity when
    that double would be [2 ^ 1024] or beyond.  It is what [float(text)]
    returns for a numeral that denotes [q], and what a float operation
    returns when its exact result is [q].  (The sign of a zero is not kept.) *)

(** [2 ^ e] for an integer [e] of either sign. *)
Definition pow2 (e : Z) : Q := (2 ^ e)%Q.

(** The exponent [e] with [2 ^ e <= |q| < 2 ^ (e + 1)], for [q] not zero. *)
Definition ilog2 (q : Q) : Z :=
  let e := (Z.log2 (Z.abs (Qnum q)) - Z.log2 (Zpos (Qden q)))%Z in
  if Qle_bool (pow2 e) (Qabs q) then e else (e - 1)%Z.

Definition round_double (q : Q) : pynum :=
  if Qeq_bool q 0 then Num 0
  else
    let u := Z.max (ilog2 q - 52) (-1074) in
    let v := (inject_Z (round_half_even (q / pow2 u)) * pow2 u)%Q in
    if Qle_bool (pow2 1024) (Qabs v)
    then (if Qle_bool 0 q then PosInf else NegInf)
    else Num (Qred v).

(** ** Health classification *)

Module Health.

(** [compute_health], lines 93-98. *)
Definition compute_health (download_mbps : option pynum) : string * string :=
  match download_mbps with
  | None => ("Unknown", "text-gray-400")
  | Some d =>
      if py_ge d 100 then ("Excellent", "text-green-400")
      else if py_ge d 50 then ("Good", "text-yellow-400")
      else if py_ge d 10 then ("Fair", "text-orange-400")
      else ("Weak", "text-red-500")
  end.

(** The tier order Weak < Fair < Good < Excellent; "Unknown" has no rank. *)
Definition tier_rank (label : string) : option nat :=
  if String.eqb label "Weak" then Some 0
  else if String.eqb label "Fair" then Some 1
  else if String.eqb label "Good" then Some 2
  else if String.eqb label "Excellent" then Some 3
  else None.

Definition tier_le (a b : string) : Prop :=
  match tier_rank a, tier_rank b with
  | Some i, Some j => i <= j
  | _, _ => False
  end.

End Health.

(** ** Regular expressions

    The fragment of Python's [re] that the four patterns of the source use:
    a sequence of single-character items, each taken once or repeated
    greedily, one capture group around a repeated item, and the anchors
    [^] and [$].  Matching is by backtracking, leftmost start first, as
    [re.search] does. *)

Module Regex.

Inductive cset :=
| CChar (c : ascii)          (* a literal character *)
| CDigit                     (* \d *)
| CSpace                     (* \s *)
| CDot                       (* . *)
| CUnion (a b : cset).       (* [ab] *)

Inductive quant := One | Star | Plus.

Inductive node :=
| Atom (c : cset) (q : quant)
| Group (c : cset) (q : quant)   (* ( c q ) : capture group 1 *)
| Bol                            (* ^ *)
| Eol.                           (* $ *)

Record flags := { ignorecase : bool; multiline : bool }.

Definition code (x : ascii) : nat := nat_of_ascii x.

(** Lower-casing of the letters A-Z; the literals of the patterns are ASCII
    letters, and below code point 256 only A-Z lower-case to one of them. *)
Definition ascii_lower (x : ascii) : ascii :=
  if (65 <=? code x) && (code x <=? 90) then ascii_of_nat (code x + 32) else x.

Definition is_digit (x : ascii) : bool := (48 <=? code x) && (code x <=? 57).

(** Unicode white space below code point 256, as [\s] and [str.strip] see it. *)
Definition is_space (x : ascii) : bool :=
  ((9 <=? code x) && (code x <=? 13)) || ((28 <=? code x) && (code x <=? 32))
  || (code x =? 133) || (code x =? 160).

Definition newline : ascii := ascii_of_nat 10.

Fixpoint cmatch (ic : bool) (c : cset) (x : ascii) : bool :=
  match c with
  | CChar a => if ic then Ascii.eqb (ascii_lower x) (ascii_lower a) else Ascii.eqb x a
  | CDigit => is_digit x
  | CSpace => is_space x
  | CDot => negb (Ascii.eqb x newline)
  | CUnion a b => cmatch ic a x || cmatch ic b x
  end.

Section Repeat.
Context {R : Type}.
Variable p : ascii -> bool.
(** The continuation gets the text consumed, the character before the
    position reached, and the rest of the input. *)
Variable k : list ascii -> option ascii -> list ascii -> option R.

(** Greedy repetition: take one more character when possible, and fall
    back to stopping here when the rest fails after it. *)
Fixpoint greedy (acc : list ascii) (prev : option ascii) (s : list ascii) : option R :=
  match s with
  | x :: s' =>
      if p x then
        match greedy (acc ++ [x]) (Some x) s' with
        | Some r => Some r
        | None => k acc prev s
        end
      else k acc prev s
  | [] => k acc prev s
  end.

Definition repeat_q (q : quant) (prev : option ascii) (s : list ascii) : option R :=
  match q with
  | One =>
      match s with
      | x :: s' => if p x then k [x] (Some x) s' else None
      | [] => None
      end
  | Star => greedy [] prev s
  | Plus =>
      match s with
      | x :: s' => if p x then greedy [x] (Some x) s' else None
      | [] => None
      end
  end.
End Repeat.

(** Match the items at the current position; the result is group 1. *)
Fixpoint match_here (f : flags) (r : list node)
    (cap : list ascii) (prev : option ascii) (s : list ascii) : option (list ascii) :=
  match r with
  | [] => Some cap
  | Atom c q :: r' =>
      repeat_q (cmatch (ignorecase f) c) (fun _ => match_here f r' cap) q prev s
  | Group c q :: r' =>
      repeat_q (cmatch (ignorecase f) c) (fun g => match_here f r' g) q prev s
  | Bol :: r' =>
      match prev with
      | None => match_here f r' cap prev s
      | Some x =>
          if multiline f && Ascii.eqb x newline then match_here f r' cap prev s else None
      end
  | Eol :: r' =>
      match s with
      | [] => match_here f r' cap prev s
      | x :: s' =>
          if Ascii.eqb x newline && (multiline f || match s' with [] => true | _ => false end)
          then match_here f r' cap prev s else None
      end
  end.

Fixpoint search_from (f : flags) (r : list node) (prev : option ascii) (s : list ascii)
    : option (list ascii) :=
  match match_here f r [] prev s with
  | Some g => Some g
  | None =>
      match s with
      | [] => None
      | x :: s' => search_from f r (Some x) s'
      end
  end.

(** The character before the position reached after reading [s]. *)
Definition prev_after (prev : option ascii) (s : list ascii) : option ascii :=
  fold_left (fun _ x => Some x) s prev.

(** The next character, if any, is not in the class. *)
Definition stops (p : ascii -> bool) (s : list ascii) : Prop :=
  match s with
  | [] => True
  | x :: _ => p x = false
  end.

(** The pattern matches at no position inside [pre], the text going on
    with [rest]. *)
Fixpoint no_match_before (f : flags) (r : list node) (prev : option ascii)
    (pre rest : list ascii) : bool :=
  match pre with
  | [] => true
  | x :: pre' =>
      match match_here f r [] prev (pre ++ rest) with
      | Some _ => false
      | None => no_match_before f r (Some x) pre' rest
      end
  end.

(** [re.search(pattern, text)] followed by [m.group(1)]. *)
Definition search (f : flags) (r : list node) (text : string) : option string :=
  string_of_list_ascii <$> search_from f r None (list_ascii_of_string text).

Definition lit (s : string) : list node :=
  map (fun c => Atom (CChar c) One) (list_ascii_of_string s).

(** [str.strip()]. *)
Fixpoint lstrip (s : list ascii) : list ascii :=
  match s with
  | x :: s' => if is_space x then lstrip s' else s
  | [] => []
  end.

Definition strip (s : string) : string :=
  string_of_list_ascii (rev (lstrip (rev (lstrip (list_ascii_of_string s))))).

End Regex.

(** ** The prober *)

Module Prober.
Import Regex.

(** [_ping_time_re = re.compile(r'time[=<]\s*([\d\.]+)\s*ms', re.IGNORECASE)] *)
Definition _ping_time_re : list node :=
  lit "time" ++
  [ Atom (CUnion (CChar "=") (CChar "<")) One;
    Atom CSpace Star;
    Group (CUnion CDigit (CChar ".")) Plus;
    Atom CSpace Star ] ++
  lit "ms".

(** [_windows_avg_re = re.compile(r'Average = (\d+)ms', re.IGNORECASE)] *)
Definition _windows_avg_re : list node :=
  lit "Average = " ++ [ Group CDigit Plus ] ++ lit "ms".

Definition re_ignorecase : flags := {| ignorecase := true; multiline := false |}.

(** The characters of [[\d\.]]. *)
Definition figure_char (x : ascii) : bool := is_digit x || Ascii.eqb x ".".

(** The value of a digit string, most significant digit first. *)
Definition digits_value (ds : list ascii) : N :=
  fold_left (fun acc d => (10 * acc + N.of_nat (code d - 48))%N) ds 0%N.

Fixpoint pow10 (n : nat) : positive :=
  match n with
  | O => 1%positive
  | S n' => (10 * pow10 n')%positive
  end.

(** The first ["."] splits the text. *)
Fixpoint split_dot (s : list ascii) : list ascii * option (list ascii) :=
  match s with
  | [] => ([], None)
  | x :: s' =>
      if Ascii.eqb x "." then ([], Some s')
      else let '(a, b) := split_dot s' in (x :: a, b)
  end.

(** The number that the decimal numeral [ip.fp] denotes. *)
Definition decimal_value (ip fp : list ascii) : Q :=
  Qmake (Z.of_N (digits_value (ip ++ fp))) (pow10 (length fp)).

(** [float(text)] on the texts a group of digits and dots can hold: digits
    with at most one dot and at least one digit give the double nearest to
    their decimal value ([inf] for a numeral beyond the doubles), anything
    else raises [ValueError] ([None]). *)
Definition py_float (text : string) : option pynum :=
  let '(ip, rest) := split_dot (list_ascii_of_string text) in
  let fp := match rest with Some t => t | None => [] end in
  if forallb is_digit ip && forallb is_digit fp
     && negb ((length ip =? 0) && (length fp =? 0))
  then Some (round_double (decimal_value ip fp))
  else None.

Inductive pyexn :=
| FileNotFoundError      (* the ping binary is missing *)
| TimeoutExpired         (* the subprocess outlived its timeout *)
| OtherException (name : string).

(** What [subprocess.run(cmd, capture_output=True, text=True, timeout=...)]
    does: it raises, or returns the completed process. *)
Inductive run_result :=
| Raised (e : pyexn)
| Completed (returncode : Z) (stdout stderr : string).

(** [str.lower()] on the platform name. *)
Definition lower (s : string) : string :=
  string_of_list_ascii (map ascii_lower (list_ascii_of_string s)).

(** The [timeout] argument with its Python type: an [int] is unbounded, a
    [float] is a double or one of [inf], [-inf], [nan]. *)
Inductive pyval :=
| PyInt (z : Z)
| PyFloat (x : pynum).

Definition OverflowError : pyexn := OtherException "OverflowError".
Definition ValueError : pyexn := OtherException "ValueError".

(** [x * 1000]: exact on an [int], rounded on a [float]. *)
Definition mul_1000 (x : pyval) : pyval :=
  match x with
  | PyInt z => PyInt (z * 1000)
  | PyFloat (Num q) => PyFloat (round_double (q * 1000))
  | PyFloat other => PyFloat other
  end.

(** [x + 1] *)
Definition add_1 (x : pyval) : pyval :=
  match x with
  | PyInt z => PyInt (z + 1)
  | PyFloat (Num q) => PyFloat (round_double (q + 1))
  | PyFloat other => PyFloat other
  end.

(** [int(x)] truncates a float towards zero; it raises [OverflowError] on
    an infinity and [ValueError] on NaN. *)
Definition py_int (x : pyval) : pyexn + Z :=
  match x with
  | PyInt z => inr z
  | PyFloat (Num q) => inr (Z.quot (Qnum q) (Zpos (Qden q)))
  | PyFloat NaN => inl ValueError
  | PyFloat _ => inl OverflowError
  end.

(** The number of decimal digits of [n >= 0]; [fuel] bounds the recursion. *)
Fixpoint count_digits (fuel : nat) (n : Z) : Z :=
  match fuel with
  | O => 0%Z
  | S fuel' => if (n <? 10)%Z then 1%Z else (1 + count_digits fuel' (n / 10))%Z
  end.

Definition num_digits (n : Z) : Z :=
  count_digits (S (Z.to_nat (Z.log2 (Z.abs n)))) (Z.abs n).

(** [sys.get_int_max_str_digits()], 4300 unless it is configured. *)
Definition int_max_str_digits : Z := 4300.

(** [str(n)] of an [int]: its decimal numeral, and [ValueError] when the
    numeral would have more digits than the interpreter allows. *)
Definition py_str (n : Z) : pyexn + string :=
  if (num_digits n <=? int_max_str_digits)%Z then inr (pretty n) else inl ValueError.

(** The command line of line 44. *)
Definition ping_cmd (system : string) (host : string) (timeout : pyval)
    : pyexn + list string :=
  if String.eqb (lower system) "windows"
  then
    match py_int (mul_1000 timeout) with
    | inl e => inl e
    | inr n =>
        match py_str n with
        | inl e => inl e
        | inr s => inr ["ping"; "-n"; "1"; "-w"; s; host]
        end
    end
  else
    match py_int timeout with
    | inl e => inl e
    | inr n =>
        match py_str n with
        | inl e => inl e
        | inr s => inr ["ping"; "-c"; "1"; "-W"; s; host]
        end
    end.

(** A timeout for which line 44 builds its command line on every platform:
    an [int] of at most 4000 digits, or a float of magnitude at most
    [1e300]. *)
Definition sane_timeout (timeout : pyval) : Prop :=
  match timeout with
  | PyInt z => (Z.abs z < 10 ^ 4000)%Z
  | PyFloat (Num q) => (Qabs q <= inject_Z (10 ^ 300))%Q
  | PyFloat _ => False
  end.

Section Probe.
(** [platform.system()] and [subprocess.run]. *)
Variable platform_system : string.
Variable subprocess_run : list string -> pyval -> run_result.

(** [ping_latency], lines 42-58.  The result is [inr] of the returned pair,
    or [inl] of an exception that leaves the function: line 44 is not
    inside the [try]. *)
Definition ping_latency (host : string) (timeout : pyval) : pyexn + (bool * option pynum) :=
  match ping_cmd platform_system host timeout with
  | inl e => inl e
  | inr cmd =>
      match subprocess_run cmd (add_1 timeout) with
      | Raised _ => inr (false, None)
      | Completed returncode stdout stderr =>
          let out := String.append stdout stderr in
          if (returncode =? 0)%Z then
            let m :=
              match search re_ignorecase _ping_time_re out with
              | Some g => Some g
              | None => search re_ignorecase _windows_avg_re out
              end in
            match m with
            | Some g =>
                match py_float g with
                | Some v => inr (true, Some v)
                | None => inr (true, None)
                end
            | None => inr (true, None)
            end
          else inr (false, None)
      end
  end.
End Probe.

End Prober.

(** ** Exceptions as results *)

Module Exn.
Import Prober.

Definition result (A : Type) : Type := pyexn + A.

Definition bind {A B} (c : result A) (k : A -> result B) : result B :=
  match c with
  | inl e => inl e
  | inr a => k a
  end.

(** [try: c except Exception: h] *)
Definition try_except {A} (c : result A) (h : pyexn -> result A) : result A :=
  match c with
  | inl e => h e
  | inr a => inr a
  end.

Definition KeyError : pyexn := OtherException "KeyError".

(** [d[k]] *)
Definition getitem {V} (d : gmap string V) (k : string) : result V :=
  match d !! k with
  | Some v => inr v
  | None => inl KeyError
  end.

End Exn.

Notation "x <- c ;; k" := (Exn.bind c (fun x => k))
  (at level 100, c at next level, right associativity).

(** ** The SSID lookup *)

Module Ssid.
Import Regex Prober Exn.

(** [r"^\s*SSID\s*:\s*(.+)$"] with [re.MULTILINE] *)
Definition windows_ssid_re : list node :=
  [ Bol; Atom CSpace Star ] ++ lit "SSID" ++
  [ Atom CSpace Star; Atom (CChar ":") One; Atom CSpace Star; Group CDot Plus; Eol ].

Definition re_multiline : flags := {| ignorecase := false; multiline := true |}.

(** [r" SSID: (.+)"] *)
Definition airport_ssid_re : list node := lit " SSID: " ++ [ Group CDot Plus ].

Definition re_noflags : flags := {| ignorecase := false; multiline := false |}.

Definition airport : string :=
  "/System/Library/PrivateFrameworks/Apple80211.framework/Versions/Current/Resources/airport".

Section Lookup.
Variable platform_system : string.
(** [subprocess.check_output(cmd, text=True)]: the output, or an exception
    (a missing tool, a non-zero exit, ...). *)
Variable check_output : list string -> result string.

(** The body of the [try], lines 64-76: [inr (Some s)] returns [s],
    [inr None] falls out of the [if] chain. *)
Definition ssid_try (sys : string) : result (option string) :=
  if String.eqb sys "windows" then
    out <- check_output ["netsh"; "wlan"; "show"; "interfaces"] ;;
    match search re_multiline windows_ssid_re out with
    | Some g => inr (Some (strip g))
    | None => inr None
    end
  else if String.eqb sys "linux" then
    out <- check_output ["iwgetid"; "-r"] ;;
    inr (Some (strip out))
  else if String.eqb sys "darwin" then
    out <- check_output [airport; "-I"] ;;
    match search re_noflags airport_ssid_re out with
    | Some g => inr (Some (strip g))
    | None => inr None
    end
  else inr None.

(** [get_current_ssid], lines 61-79. *)
Definition get_current_ssid : result string :=
  let sys := lower platform_system in
  r <- try_except (ssid_try sys) (fun _ => inr None) ;;
  match r with
  | Some s => inr s
  | None => inr "Unknown"
  end.
End Lookup.

End Ssid.

(** ** The speed-test gateway *)

Module Speedtest.
Import Prober Exn Health.

(** What the [speedtest] library does at each stage of one measurement. *)
Record speedtest_lib := {
  new_Speedtest : result unit;        (* speedtest.Speedtest() *)
  get_best_server : result unit;      (* st.get_best_server() *)
  download : result pynum;            (* st.download() *)
  upload : result pynum;              (* st.upload() *)
  results_ping : result pynum;        (* st.results.ping *)
}.

(** Some stage of the measurement raises. *)
Definition speedtest_fails (lib : speedtest_lib) : Prop :=
  (∃ e, new_Speedtest lib = inl e) ∨ (∃ e, get_best_server lib = inl e) ∨
  (∃ e, download lib = inl e) ∨ (∃ e, upload lib = inl e) ∨
  (∃ e, results_ping lib = inl e).

(** [x / 1_000_000] *)
Definition per_million (x : pynum) : pynum :=
  match x with
  | Num q => Num (q / 1000000)%Q
  | other => other
  end.

(** [round(x, ndigits)] on a float. *)
Definition py_round (x : pynum) (ndigits : nat) : pynum :=
  match x with
  | Num q =>
      Num (Qmake (round_half_even (q * inject_Z (Zpos (pow10 ndigits)))%Q) (pow10 ndigits))
  | other => other
  end.

(** [run_speedtest], lines 81-91. *)
Definition run_speedtest (lib : speedtest_lib)
    : result (option pynum * option pynum * option pynum) :=
  try_except
    (_ <- new_Speedtest lib ;;
     _ <- get_best_server lib ;;
     d <- download lib ;;
     let dl := per_million d in
     u <- upload lib ;;
     let ul := per_million u in
     ping <- results_ping lib ;;
     inr (Some (py_round dl 2), Some (py_round ul 2), Some (py_round ping 1)))
    (fun e => inr (None, None, None)).

(** The dictionary handed to [jsonify] by [api_speedtest]. *)
Record speedtest_payload := {
  ssid : string;
  download_mbps : option pynum;
  upload_mbps : option pynum;
  ping_ms : option pynum;
  health : string;
  health_color : string;
  time : string;
}.

Section Api.
Variable platform_system : string.
Variable check_output : list string -> result string.
Variable lib : speedtest_lib.
Variable now : string.   (* datetime.now().strftime(...) *)

(** [api_speedtest], lines 243-256. *)
Definition api_speedtest : result speedtest_payload :=
  ssid <- Ssid.get_current_ssid platform_system check_output ;;
  r <- run_speedtest lib ;;
  let '(dl, ul, ping) := r in
  let '(health, color) := compute_health dl in
  inr {| ssid := ssid; download_mbps := dl; upload_mbps := ul; ping_ms := ping;
         health := health; health_color := color; time := now |}.
End Api.

End Speedtest.

(** ** The scheduler *)

Module Monitor.
Import Prober Exn.

(** [WIFI_TARGETS], lines 15-26, in the order of the dictionary. *)
Definition WIFI_TARGETS : list (string * string) :=
  [ ("Shakti_2.4GHz", "192.168.1.1");
    ("SHAKTI_5GHz", "192.168.1.2");
    ("Air_Shakti_564_5GHz", "192.168.1.3");
    ("Air_Shakti_564_2.4GHz", "192.168.1.4");
    ("Air_Shakti_501_2.4GHz", "192.168.1.5");
    ("Air_Shakti_501_5GHz", "192.168.1.6");
    ("Lawful_Connect_2.4GHz", "192.168.1.7");
    ("Lawfull_Conect_5GHz", "192.168.1.8");
    ("Airtel_Zerotouch", "192.168.1.9");
    ("Airtel_Zerotouch_5G", "192.168.1.10") ].

Definition CHECK_INTERVAL : nat := 8.
Definition HISTORY_LENGTH : nat := 300.

(** One entry of [status_store]: a dictionary with the four keys
    ["ip"], ["status"], ["last"], ["latency"]. *)
Record status_record := {
  ip : string;
  status : string;
  last : option string;
  latency : option pynum;
}.

Definition set_ip (v : string) (r : status_record) : status_record :=
  {| ip := v; status := status r; last := last r; latency := latency r |}.
Definition set_status (v : string) (r : status_record) : status_record :=
  {| ip := ip r; status := v; last := last r; latency := latency r |}.
Definition set_last (v : option string) (r : status_record) : status_record :=
  {| ip := ip r; status := status r; last := v; latency := latency r |}.
Definition set_latency (v : option pynum) (r : status_record) : status_record :=
  {| ip := ip r; status := status r; last := last r; latency := v |}.

(** [r.update({"ip": ip, "status": status, "last": ts, "latency": lat})]:
    the keys are set one after the other, in this order. *)
Definition record_update (ip_ status_ ts : string) (lat : option pynum)
    (r : status_record) : status_record :=
  set_latency lat (set_last (Some ts) (set_status status_ (set_ip ip_ r))).

(** A history sample [(ts, 1 if ok else 0, lat)]. *)
Definition sample : Type := string * Z * option pynum.

(** [collections.deque(maxlen=...)]. *)
Record deque := { maxlen : nat; items : list sample }.

(** [d.append(x)]: the item goes to the right end, and when the length then
    exceeds [maxlen] the leftmost item is dropped. *)
Definition deque_append (d : deque) (x : sample) : deque :=
  let l := items d ++ [x] in
  {| maxlen := maxlen d;
     items := if maxlen d <? length l then tail l else l |}.

(** The three module-level dictionaries, lines 34-36. *)
Record state := {
  status_store : gmap string status_record;
  history : gmap string deque;
  last_status : gmap string string;
}.

Definition init_record (i : string) : status_record :=
  {| ip := i; status := "Unknown"; last := None; latency := None |}.

Definition init_state : state :=
  {| status_store := list_to_map (map (fun '(n, i) => (n, init_record i)) WIFI_TARGETS);
     history := list_to_map
       (map (fun '(n, _) => (n, {| maxlen := HISTORY_LENGTH; items := [] |})) WIFI_TARGETS);
     last_status := list_to_map (map (fun '(n, _) => (n, "Unknown")) WIFI_TARGETS) |}.

(** What the operating system answers during one probe. *)
Record world := {
  platform_system : string;                              (* platform.system() *)
  subprocess_run : list string -> pyval -> run_result;   (* subprocess.run *)
  now : string;            (* datetime.now().strftime("%Y-%m-%d %H:%M:%S") *)
}.

(** [ping_latency(ip)], with the default [timeout=2]. *)
Definition probe (w : world) (ip_ : string) : result (bool * option pynum) :=
  ping_latency (platform_system w) (subprocess_run w) ip_ (PyInt 2).

Definition status_of (ok : bool) : string := if ok then "UP" else "DOWN".

Definition sample_of (ts : string) (ok : bool) (lat : option pynum) : sample :=
  (ts, if ok then 1%Z else 0%Z, lat).

(** The body of the [for] loop, lines 103-109. *)
Definition probe_target (w : world) (name ip_ : string) (st : state) : result state :=
  r <- probe w ip_ ;;
  let '(ok, lat) := r in
  let status_ := status_of ok in
  let ts := now w in
  rec <- getitem (status_store st) name ;;
  let store' := <[name := record_update ip_ status_ ts lat rec]> (status_store st) in
  d <- getitem (history st) name ;;
  let history' := <[name := deque_append d (sample_of ts ok lat)]> (history st) in
  inr {| status_store := store';
         history := history';
         last_status := <[name := status_]> (last_status st) |}.

(** One pass of the [for] loop over the targets; [w] gives the world at the
    probe of each target. *)
Fixpoint for_targets (w : string -> world) (ts : list (string * string)) (st : state)
    : result state :=
  match ts with
  | [] => inr st
  | (name, ip_) :: ts' =>
      st' <- probe_target (w name) name ip_ st ;;
      for_targets w ts' st'
  end.

Definition tick (w : string -> world) (st : state) : result state :=
  for_targets w WIFI_TARGETS st.

(** The first [n] iterations of the [while True] loop of [monitor_loop];
    [env k] is the world during iteration [k]. *)
Fixpoint monitor_loop (env : nat -> string -> world) (n : nat) (st : state) : result state :=
  match n with
  | O => inr st
  | S n' =>
      st' <- monitor_loop env n' st ;;
      tick (env n') st'
  end.

(** [api_status], lines 238-241: the dictionary handed to [jsonify]. *)
Definition api_status (st : state) : gmap string status_record := status_store st.

(** A world in which every probe times out. *)
Definition silent_world : world :=
  {| platform_system := "Linux";
     subprocess_run := fun _ _ => Raised TimeoutExpired;
     now := "2025-01-01 00:00:00" |}.

(** A world in which every host answers. *)
Definition lively_world : world :=
  {| platform_system := "Linux";
     subprocess_run := fun _ _ =>
       Completed 0 "64 bytes from 192.168.1.1: icmp_seq=1 ttl=64 time=23.4 ms" "";
     now := "2025-01-01 00:00:08" |}.

(** The state after [n] iterations and the first [idx] probes of the next. *)
Definition monitor_upto (env : nat -> string -> world) (n idx : nat) : result state :=
  st <- monitor_loop env n init_state ;;
  for_targets (env n) (take idx WIFI_TARGETS) st.

(** The pair that [ping_latency] returns. *)
Definition probe_result (w : world) (ip_ : string) : bool * option pynum :=
  match probe w ip_ with
  | inr r => r
  | inl _ => (false, None)
  end.

(** The sample that iteration [k] appends for the target at [ip_]. *)
Definition sample_at (env : nat -> string -> world) (name ip_ : string) (k : nat)
    : sample :=
  let w := env k name in
  sample_of (now w) (fst (probe_result w ip_)) (snd (probe_result w ip_)).

(** The record that iteration [k] writes for the target at [ip_]. *)
Definition record_at (env : nat -> string -> world) (name ip_ : string) (k : nat)
    : status_record :=
  let w := env k name in
  {| ip := ip_; status := status_of (fst (probe_result w ip_)); last := Some (now w);
     latency := snd (probe_result w ip_) |}.

(** What a target holds once it has been probed [c] times. *)
Definition record_after (env : nat -> string -> world) (name ip_ : string) (c : nat)
    : status_record :=
  match c with
  | O => init_record ip_
  | S k => record_at env name ip_ k
  end.

Definition history_after (env : nat -> string -> world) (name ip_ : string) (c : nat)
    : deque :=
  {| maxlen := HISTORY_LENGTH;
     items := map (sample_at env name ip_)
                (seq (c - min c HISTORY_LENGTH) (min c HISTORY_LENGTH)) |}.

Definition last_status_after (env : nat -> string -> world) (name ip_ : string) (c : nat)
    : string :=
  match c with
  | O => "Unknown"
  | S k => status_of (fst (probe_result (env k name) ip_))
  end.

(** How often the [j]-th target has been probed after [n] iterations and
    [idx] probes of the next. *)
Definition probes_done (n idx j : nat) : nat := if j <? idx then S n else n.

Definition targets : gset string := list_to_set (WIFI_TARGETS.*1).

Definition state_inv (env : nat -> string -> world) (n idx : nat) (st : state) : Prop :=
  dom (status_store st) = targets ∧
  dom (history st) = targets ∧
  dom (last_status st) = targets ∧
  ∀ j name ip_, WIFI_TARGETS !! j = Some (name, ip_) →
    status_store st !! name = Some (record_after env name ip_ (probes_done n idx j)) ∧
    history st !! name = Some (history_after env name ip_ (probes_done n idx j)) ∧
    last_status st !! name = Some (last_status_after env name ip_ (probes_done n idx j)).

End Monitor.

(** ** The scheduler thread and the request threads

    The scheduler thread and the threads serving [/api/status] run
    interleaved, one step at a time.  A step of the scheduler is one
    statement of the loop body, and the update of a record is one step per
    key; a request takes the lock, copies the store, and releases the
    lock. *)

Module Conc.
Import Prober Exn Monitor.

Inductive tid :=
| Mon                (* the thread running [monitor_loop] *)
| Req (i : nat).     (* the thread serving the i-th request to /api/status *)

Inductive mon_pc :=
| MProbe             (* lines 103-105, or [time.sleep] after the last target *)
| MAcquire           (* line 106, entering [with lock] *)
| MSetIp             (* line 107, key "ip" *)
| MSetStatus         (* line 107, key "status" *)
| MSetLast           (* line 107, key "last" *)
| MSetLatency        (* line 107, key "latency" *)
| MAppend            (* line 108 *)
| MRelease           (* leaving [with lock] *)
| MLastStatus        (* line 109 *)
| MDead.             (* an exception left the loop *)

(** The loop counters and the local variables of [monitor_loop]. *)
Record mon_state := {
  m_tick : nat;
  m_idx : nat;
  m_pc : mon_pc;
  m_name : string;
  m_ip : string;
  m_ok : bool;
  m_lat : option pynum;
  m_status : string;
  m_ts : string;
}.

Inductive req_state :=
| RStart                                          (* before [with lock] *)
| RLocked                                         (* inside, before [jsonify] *)
| RCopied (snap : gmap string status_record)      (* inside, after [jsonify] *)
| RDone (snap : gmap string status_record).       (* response returned *)

Record cstate := {
  shared : state;
  lock : option tid;
  mon : mon_state;
  reqs : gmap nat req_state;
}.

Inductive obj := StatusStore | History | LastStatus.

Inductive access :=
| Write (o : obj) (name : string)
| Read (o : obj)
| Acquire
| Release
| Local.

(** A step, with the holder of the lock when it was taken. *)
Record event := { ev_tid : tid; ev_lock : option tid; ev_access : access }.

Definition init_mon : mon_state :=
  {| m_tick := 0; m_idx := 0; m_pc := MProbe; m_name := ""; m_ip := "";
     m_ok := false; m_lat := None; m_status := ""; m_ts := "" |}.

Definition init_cstate : cstate :=
  {| shared := init_state; lock := None; mon := init_mon; reqs := ∅ |}.

Definition at_pc (pc : mon_pc) (m : mon_state) : mon_state :=
  {| m_tick := m_tick m; m_idx := m_idx m; m_pc := pc; m_name := m_name m;
     m_ip := m_ip m; m_ok := m_ok m; m_lat := m_lat m; m_status := m_status m;
     m_ts := m_ts m |}.

Definition with_store (f : gmap string status_record -> gmap string status_record)
    (st : state) : state :=
  {| status_store := f (status_store st); history := history st;
     last_status := last_status st |}.

(** One key of the record of the current target is set, in place. *)
Definition set_key (f : status_record -> status_record) (next : mon_pc) (c : cstate)
    : cstate * option event :=
  let m := mon c in
  match status_store (shared c) !! m_name m with
  | None =>
      ({| shared := shared c; lock := None; mon := at_pc MDead m; reqs := reqs c |},
       Some {| ev_tid := Mon; ev_lock := lock c; ev_access := Release |})
  | Some _ =>
      ({| shared := with_store (alter f (m_name m)) (shared c); lock := lock c;
          mon := at_pc next m; reqs := reqs c |},
       Some {| ev_tid := Mon; ev_lock := lock c;
               ev_access := Write StatusStore (m_name m) |})
  end.

Definition step_mon (env : nat -> string -> world) (c : cstate) : cstate * option event :=
  let m := mon c in
  let ev a := Some {| ev_tid := Mon; ev_lock := lock c; ev_access := a |} in
  match m_pc m with
  | MProbe =>
      match WIFI_TARGETS !! m_idx m with
      | None =>
          (* the [for] loop is over: [time.sleep], then the next iteration *)
          ({| shared := shared c; lock := lock c;
              mon := {| m_tick := S (m_tick m); m_idx := 0; m_pc := MProbe;
                        m_name := m_name m; m_ip := m_ip m; m_ok := m_ok m;
                        m_lat := m_lat m; m_status := m_status m; m_ts := m_ts m |};
              reqs := reqs c |}, ev Local)
      | Some (name, ip_) =>
          match probe (env (m_tick m) name) ip_ with
          | inl _ =>
              ({| shared := shared c; lock := lock c; mon := at_pc MDead m;
                  reqs := reqs c |}, ev Local)
          | inr (ok, lat) =>
              ({| shared := shared c; lock := lock c;
                  mon := {| m_tick := m_tick m; m_idx := m_idx m; m_pc := MAcquire;
                            m_name := name; m_ip := ip_; m_ok := ok; m_lat := lat;
                            m_status := status_of ok;
                            m_ts := now (env (m_tick m) name) |};
                  reqs := reqs c |}, ev Local)
          end
      end
  | MAcquire =>
      match lock c with
      | None =>
          ({| shared := shared c; lock := Some Mon; mon := at_pc MSetIp m;
              reqs := reqs c |}, ev Acquire)
      | Some _ => (c, None)
      end
  | MSetIp => set_key (set_ip (m_ip m)) MSetStatus c
  | MSetStatus => set_key (set_status (m_status m)) MSetLast c
  | MSetLast => set_key (set_last (Some (m_ts m))) MSetLatency c
  | MSetLatency => set_key (set_latency (m_lat m)) MAppend c
  | MAppend =>
      match history (shared c) !! m_name m with
      | None =>
          ({| shared := shared c; lock := None; mon := at_pc MDead m; reqs := reqs c |},
           ev Release)
      | Some d =>
          ({| shared :=
                {| status_store := status_store (shared c);
                   history := <[m_name m :=
                                  deque_append d (sample_of (m_ts m) (m_ok m) (m_lat m))]>
                                (history (shared c));
                   last_status := last_status (shared c) |};
              lock := lock c; mon := at_pc MRelease m; reqs := reqs c |},
           ev (Write History (m_name m)))
      end
  | MRelease =>
      ({| shared := shared c; lock := None; mon := at_pc MLastStatus m; reqs := reqs c |},
       ev Release)
  | MLastStatus =>
      ({| shared :=
            {| status_store := status_store (shared c);
               history := history (shared c);
               last_status := <[m_name m := m_status m]> (last_status (shared c)) |};
          lock := lock c;
          mon := {| m_tick := m_tick m; m_idx := S (m_idx m); m_pc := MProbe;
                    m_name := m_name m; m_ip := m_ip m; m_ok := m_ok m;
                    m_lat := m_lat m; m_status := m_status m; m_ts := m_ts m |};
          reqs := reqs c |},
       ev (Write LastStatus (m_name m)))
  | MDead => (c, None)
  end.

(** [api_status] served by thread [Req i]. *)
Definition step_req (i : nat) (c : cstate) : cstate * option event :=
  let ev a := Some {| ev_tid := Req i; ev_lock := lock c; ev_access := a |} in
  match default RStart (reqs c !! i) with
  | RStart =>
      match lock c with
      | None =>
          ({| shared := shared c; lock := Some (Req i); mon := mon c;
              reqs := <[i := RLocked]> (reqs c) |}, ev Acquire)
      | Some _ => (c, None)
      end
  | RLocked =>
      ({| shared := shared c; lock := lock c; mon := mon c;
          reqs := <[i := RCopied (api_status (shared c))]> (reqs c) |},
       ev (Read StatusStore))
  | RCopied snap =>
      ({| shared := shared c; lock := None; mon := mon c;
          reqs := <[i := RDone snap]> (reqs c) |}, ev Release)
  | RDone _ => (c, None)
  end.

Definition step (env : nat -> string -> world) (t : tid) (c : cstate)
    : cstate * option event :=
  match t with
  | Mon => step_mon env c
  | Req i => step_req i c
  end.

(** Run the threads in the order of the schedule; a thread that cannot move
    (it waits for the lock, or it has finished) is skipped. *)
Fixpoint exec (env : nat -> string -> world) (sched : list tid) (c : cstate)
    : cstate * list event :=
  match sched with
  | [] => (c, [])
  | t :: sched' =>
      let '(c', e) := step env t c in
      let '(c'', tr) := exec env sched' c' in
      (c'', match e with Some ev => ev :: tr | None => tr end)
  end.

Definition run (env : nat -> string -> world) (sched : list tid) : cstate :=
  fst (exec env sched init_cstate).

Definition trace (env : nat -> string -> world) (sched : list tid) : list event :=
  snd (exec env sched init_cstate).

(** The response of request [i], once it has been produced. *)
Definition response (c : cstate) (i : nat) : option (gmap string status_record) :=
  match reqs c !! i with
  | Some (RCopied snap) | Some (RDone snap) => Some snap
  | _ => None
  end.

(** The step was taken by the holder of the lock. *)
Definition locked (ev : event) : Prop := ev_lock ev = Some (ev_tid ev).

Definition mutation (ev : event) : Prop :=
  ∃ o name, ev_access ev = Write o name.

(** The discipline of the lock, for one step: the store and the histories
    are written by the scheduler while it holds the lock, the store is read
    by the holder of the lock, and [last_status] is written by the scheduler
    when it does not hold the lock. *)
Definition event_guard (ev : event) : Prop :=
  match ev_access ev with
  | Write StatusStore _ | Write History _ => ev_tid ev = Mon ∧ ev_lock ev = Some Mon
  | Write LastStatus _ => ev_tid ev = Mon ∧ ev_lock ev ≠ Some Mon
  | Read _ => locked ev
  | _ => True
  end.

(** Every write to a shared dictionary is made by the holder of the lock. *)
Definition all_mutations_locked (env : nat -> string -> world) (sched : list tid) : Prop :=
  ∀ ev, ev ∈ trace env sched → mutation ev → locked ev.

(** A record as one complete update left it, or as it was at start. *)
Definition whole (env : nat -> string -> world) (name : string) (r : status_record)
    : Prop :=
  ∃ ip_, (name, ip_) ∈ WIFI_TARGETS ∧
    (r = init_record ip_ ∨ ∃ k, r = record_at env name ip_ k).

(** *** The invariant of the interleaved run *)

(** Between [MSetIp] and [MRelease] the scheduler is inside [with lock]. *)
Definition in_critical (pc : mon_pc) : bool :=
  match pc with
  | MSetIp | MSetStatus | MSetLast | MSetLatency | MAppend | MRelease => true
  | _ => false
  end.

(** The record of the current target while its keys are being set. *)
Definition pending_record (m : mon_state) (r0 : status_record) : status_record :=
  match m_pc m with
  | MSetStatus => set_ip (m_ip m) r0
  | MSetLast => set_status (m_status m) (set_ip (m_ip m) r0)
  | MSetLatency =>
      set_last (Some (m_ts m)) (set_status (m_status m) (set_ip (m_ip m) r0))
  | MAppend | MRelease | MLastStatus =>
      record_update (m_ip m) (m_status m) (m_ts m) (m_lat m) r0
  | _ => r0
  end.

Definition pending_deque (m : mon_state) (d : deque) : deque :=
  match m_pc m with
  | MRelease | MLastStatus => deque_append d (sample_of (m_ts m) (m_ok m) (m_lat m))
  | _ => d
  end.

(** The local variables hold the probe of the current target. *)
Definition locals_ok (env : nat -> string -> world) (m : mon_state) : Prop :=
  match m_pc m with
  | MProbe => m_idx m ≤ length WIFI_TARGETS
  | MDead => False
  | _ =>
      WIFI_TARGETS !! m_idx m = Some (m_name m, m_ip m) ∧
      m_ok m = fst (probe_result (env (m_tick m) (m_name m)) (m_ip m)) ∧
      m_lat m = snd (probe_result (env (m_tick m) (m_name m)) (m_ip m)) ∧
      m_status m = status_of (m_ok m) ∧
      m_ts m = now (env (m_tick m) (m_name m))
  end.

(** The shared dictionaries are those of the sequential loop before the
    current target, with the record and the history of the current target
    as far as the scheduler has got with them. *)
Definition shared_ok (env : nat -> string -> world) (m : mon_state) (sh : state) : Prop :=
  ∃ base, state_inv env (m_tick m) (m_idx m) base ∧
    match m_pc m with
    | MProbe | MAcquire | MSetIp | MDead => sh = base
    | _ =>
        ∃ r0 d, status_store base !! m_name m = Some r0 ∧
          history base !! m_name m = Some d ∧
          sh = {| status_store := <[m_name m := pending_record m r0]> (status_store base);
                  history := <[m_name m := pending_deque m d]> (history base);
                  last_status := last_status base |}
    end.

Definition lock_ok (c : cstate) : Prop :=
  (lock c = Some Mon ↔ in_critical (m_pc (mon c)) = true) ∧
  ∀ i, lock c = Some (Req i) ↔
       (reqs c !! i = Some RLocked ∨ ∃ snap, reqs c !! i = Some (RCopied snap)).

Definition snaps_ok (env : nat -> string -> world) (c : cstate) : Prop :=
  ∀ i snap, response c i = Some snap →
    dom snap = targets ∧ ∀ name r, snap !! name = Some r → whole env name r.

Definition conc_inv (env : nat -> string -> world) (c : cstate) : Prop :=
  locals_ok env (mon c) ∧ shared_ok env (mon c) (shared c) ∧ lock_ok c ∧ snaps_ok env c.

Definition event_ok (e : option event) : Prop :=
  match e with
  | Some ev => event_guard ev
  | None => True
  end.

End Conc.

(** ** Lines of text *)

Module Lines.
Import Regex.

(** [pre] is empty or ends with a newline: what follows starts a line. *)
Definition at_line_start (pre : list ascii) : bool :=
  match prev_after None pre with
  | None => true
  | Some x => Ascii.eqb x newline
  end.

(** [rest] is empty or starts with a newline: what precedes ends a line. *)
Definition at_line_end (rest : list ascii) : bool :=
  match rest with
  | [] => true
  | x :: _ => Ascii.eqb x newline
  end.

Definition no_newline (s : list ascii) : bool :=
  forallb (fun x => negb (Ascii.eqb x newline)) s.

End Lines.

(** ** More on the interleaved run *)

Module Threads.
Import Prober Exn Monitor Conc.

(** The request is inside [with lock]. *)
Definition inside (q : option req_state) : bool :=
  match q with
  | Some RLocked | Some (RCopied _) => true
  | _ => false
  end.

(** The step of thread [t] does something: the thread neither waits for the
    lock nor has it finished. *)
Definition can_step (env : nat -> string -> world) (t : tid) (c : cstate) : Prop :=
  snd (step env t c) ≠ None.

(** [snap] is the status map of the sequential loop between two probes. *)
Definition seq_snapshot (env : nat -> string -> world)
    (snap : gmap string status_record) : Prop :=
  ∃ n idx st, idx ≤ length WIFI_TARGETS ∧ monitor_upto env n idx = inr st ∧
    snap = api_status st.

Definition snaps_seq (env : nat -> string -> world) (c : cstate) : Prop :=
  ∀ i snap, response c i = Some snap → seq_snapshot env snap.

End Threads.
(** * Properties *)

(** ** Doubles *)

Section DoubleFacts.

Lemma pow2_pos (e : Z) : (0 < pow2 e)%Q.
Proof. apply Qpower_0_lt. reflexivity. Qed.

Lemma pow2_Z (e : Z) : (0 <= e)%Z → (pow2 e == inject_Z (2 ^ e))%Q.
Proof. intros He. unfold pow2. now rewrite Zpower_Qpower. Qed.

Lemma pow2_le (a b : Z) : (a <= b)%Z → (pow2 a <= pow2 b)%Q.
Proof. intros H. apply Qpower_le_compat_l; [exact H | discriminate]. Qed.

Lemma pow2_sub (a b : Z) : (pow2 (a - b) == pow2 a / pow2 b)%Q.
Proof. apply Qpower_minus. discriminate. Qed.

Lemma round_half_even_comp (x y : Q) : (x == y)%Q → round_half_even x = round_half_even y.
Proof.
  intros H. unfold round_half_even. rewrite (Qfloor_comp x y H).
  assert (Hc : (x - inject_Z (Qfloor y) ?= 1 # 2)%Q = (y - inject_Z (Qfloor y) ?= 1 # 2)%Q)
    by now rewrite H.
  now rewrite Hc.
Qed.

Lemma round_half_even_Z (z : Z) : round_half_even (inject_Z z) = z.
Proof.
  unfold round_half_even. rewrite Qfloor_Z.
  assert (Hc : (inject_Z z - inject_Z z ?= 1 # 2)%Q = Lt).
  { apply Qlt_alt. unfold Qminus. rewrite Qplus_opp_r. reflexivity. }
  now rewrite Hc.
Qed.

(** Rounding moves a number by at most a half. *)
Lemma round_half_even_near (y : Q) :
  (y - (1 # 2) <= inject_Z (round_half_even y) <= y + (1 # 2))%Q.
Proof.
  unfold round_half_even.
  pose proof (Qfloor_le y) as H1. pose proof (Qlt_floor y) as H2.
  rewrite inject_Z_plus in H2. change (inject_Z 1) with 1%Q in H2.
  destruct (y - inject_Z (Qfloor y) ?= 1 # 2)%Q eqn:Hc.
  - apply Qeq_alt in Hc.
    destruct (Z.even (Qfloor y));
      [|rewrite inject_Z_plus; change (inject_Z 1) with 1%Q]; lra.
  - apply Qlt_alt in Hc. lra.
  - apply Qgt_alt in Hc. rewrite inject_Z_plus. change (inject_Z 1) with 1%Q. lra.
Qed.

Lemma round_half_even_nonneg (y : Q) : (0 <= y)%Q → (0 <= round_half_even y)%Z.
Proof.
  intros Hy. assert (Hf : (0 <= Qfloor y)%Z).
  { change 0%Z with (Qfloor 0). now apply Qfloor_resp_le. }
  unfold round_half_even.
  destruct (y - inject_Z (Qfloor y) ?= 1 # 2)%Q; [destruct (Z.even _)| |]; lia.
Qed.

(** [ilog2] is below the logarithm. *)
Lemma ilog2_le (q : Q) : ¬ (q == 0)%Q → (pow2 (ilog2 q) <= Qabs q)%Q.
Proof.
  intros Hq. unfold ilog2.
  set (n := Z.abs (Qnum q)). set (d := Zpos (Qden q)).
  destruct (Qle_bool (pow2 (Z.log2 n - Z.log2 d)) (Qabs q)) eqn:Hb.
  - now apply Qle_bool_iff.
  - assert (Hn : (0 < n)%Z).
    { unfold n. destruct q as [[|p|p] dd]; cbn; try lia.
      exfalso. apply Hq. reflexivity. }
    assert (Hd : (0 < d)%Z) by (unfold d; lia).
    pose proof (Z.log2_spec n Hn) as [Hn1 _].
    pose proof (Z.log2_spec d Hd) as [_ Hd2].
    pose proof (Z.log2_nonneg n) as Ha. pose proof (Z.log2_nonneg d) as Hb'.
    replace (Z.log2 n - Z.log2 d - 1)%Z with (Z.log2 n - Z.succ (Z.log2 d))%Z by lia.
    rewrite pow2_sub, !pow2_Z by lia.
    assert (Habs : (Qabs q == inject_Z n / inject_Z d)%Q).
    { destruct q as [qn qd]. unfold Qabs, n, d. cbn [Qnum Qden].
      rewrite (Qmake_Qdiv (Z.abs qn) qd). reflexivity. }
    rewrite Habs.
    assert (H2d : (0 < inject_Z (2 ^ Z.succ (Z.log2 d)))%Q).
    { rewrite <- pow2_Z by lia. apply pow2_pos. }
    assert (Hdq : (0 < inject_Z d)%Q) by (change 0%Q with (inject_Z 0); now rewrite <- Zlt_Qlt).
    apply Qle_shift_div_l; [exact Hdq|].
    unfold Qdiv. rewrite <- Qmult_assoc, (Qmult_comm (/ _)), Qmult_assoc.
    apply Qle_shift_div_r; [exact H2d|].
    rewrite <- !inject_Z_mult, <- Zle_Qle. nia.
Qed.

(** A finite result is below [2 ^ 1024], has the sign of the number and is
    off by at most half a unit in the last place: [2 ^ -53] of the number,
    or [2 ^ -1075] among the subnormals.  An infinity has the sign of the
    number, which is then [2 ^ 1023] at least. *)
Lemma round_double_cases (q : Q) :
  (∃ v, round_double q = Num v ∧ (Qabs v < pow2 1024)%Q ∧
        (Qabs v <= 2 * Qabs q)%Q ∧ ((0 <= q)%Q → (0 <= v)%Q) ∧
        ((Qabs (v - q) <= Qabs q * pow2 (-53))%Q ∨
         (Qabs (v - q) <= pow2 (-1075))%Q)) ∨
  (round_double q = PosInf ∧ (0 <= q)%Q ∧ (pow2 1023 <= Qabs q)%Q) ∨
  (round_double q = NegInf ∧ (q < 0)%Q ∧ (pow2 1023 <= Qabs q)%Q).
Proof.
  unfold round_double. destruct (Qeq_bool q 0) eqn:Hz.
  { left. exists 0%Q. split; [reflexivity|]. split; [reflexivity|].
    pose proof (Qabs_nonneg q) as Hq0. apply Qeq_bool_eq in Hz.
    split; [change (Qabs 0) with 0%Q; lra|]. split; [intros _; apply Qle_refl|].
    right. assert (H0 : (0 - q == 0)%Q) by (rewrite Hz; reflexivity).
    rewrite H0. discriminate. }
  apply Qeq_bool_neq in Hz.
  set (u := Z.max (ilog2 q - 52) (-1074)).
  set (m := round_half_even (q / pow2 u)).
  set (v := (inject_Z m * pow2 u)%Q).
  pose proof (pow2_pos u) as Hu.
  pose proof (round_half_even_near (q / pow2 u)) as [Hlo Hhi]. fold m in Hlo, Hhi.
  assert (Hqv : (q - pow2 u * (1 # 2) <= v <= q + pow2 u * (1 # 2))%Q).
  { unfold v. assert (Hq' : (q == q / pow2 u * pow2 u)%Q) by (field; lra).
    set (y := (q / pow2 u)%Q) in *.
    assert (H1 : ((y - (1 # 2)) * pow2 u <= inject_Z m * pow2 u)%Q)
      by (apply Qmult_le_compat_r; [exact Hlo | lra]).
    assert (H2 : (inject_Z m * pow2 u <= (y + (1 # 2)) * pow2 u)%Q)
      by (apply Qmult_le_compat_r; [exact Hhi | lra]).
    split; lra. }
  assert (Hsign : (0 <= q)%Q → (0 <= v)%Q).
  { intros Hq. unfold v. apply Qmult_le_0_compat; [|lra].
    change 0%Q with (inject_Z 0). rewrite <- Zle_Qle.
    apply round_half_even_nonneg. apply Qle_shift_div_l; [exact Hu | lra]. }
  (* the unit in the last place is small against the number, or tiny *)
  assert (H52 : (pow2 52 == 4503599627370496)%Q) by (vm_compute; reflexivity).
  assert (H53 : (pow2 (-53) == 1 # 9007199254740992)%Q) by (vm_compute; reflexivity).
  assert (Hulp : (pow2 u * 4503599627370496 <= Qabs q)%Q ∨ u = (-1074)%Z).
  { destruct (Z.max_spec (ilog2 q - 52) (-1074)) as [[_ Hm]|[_ Hm]]; fold u in Hm.
    - now right.
    - left. rewrite Hm. eapply Qle_trans; [|apply (ilog2_le q Hz)].
      rewrite pow2_sub, H52. apply Qle_lteq. right. field. }
  assert (Hnear : (Qabs (v - q) <= pow2 u * (1 # 2))%Q).
  { apply Qabs_Qle_condition. lra. }
  assert (Hvq : (Qabs v <= Qabs q + pow2 u * (1 # 2))%Q).
  { apply Qabs_Qle_condition. pose proof (Qle_Qabs q). pose proof (Qle_Qabs (- q)).
    rewrite Qabs_opp in *. lra. }
  destruct (Qle_bool (pow2 1024) (Qabs v)) eqn:Hov.
  - apply Qle_bool_iff in Hov. right.
    assert (Hbig : (pow2 1023 <= Qabs q)%Q).
    { assert (H24 : (pow2 1024 == 2 * pow2 1023)%Q) by (vm_compute; reflexivity).
      destruct Hulp as [Hs | Hs].
      - lra.
      - assert (Ht : (pow2 u <= pow2 1023)%Q) by (apply pow2_le; lia). lra. }
    destruct (Qle_bool 0 q) eqn:Hs.
    + left. apply Qle_bool_iff in Hs. auto.
    + right. split; [reflexivity|]. split; [|exact Hbig].
      apply Qnot_le_lt. intros H. apply Qle_bool_iff in H. congruence.
  - left. exists (Qred v). split; [reflexivity|].
    assert (Hlt : (Qabs v < pow2 1024)%Q).
    { apply Qnot_le_lt. intros H. apply Qle_bool_iff in H. congruence. }
    rewrite !Qred_correct. split; [exact Hlt|].
    assert (Herr : (Qabs (v - q) <= Qabs q * pow2 (-53))%Q ∨
                   (Qabs (v - q) <= pow2 (-1075))%Q).
    { destruct Hulp as [Hs | Hs]; [left; rewrite H53; lra | right].
      eapply Qle_trans; [exact Hnear|]. rewrite Hs. vm_compute. discriminate. }
    split; [|split; [exact Hsign | exact Herr]].
    destruct Hulp as [Hs | Hs]; [lra|].
    (* subnormal: a result that is not zero is at least the smallest double *)
    destruct (Z.eq_dec m 0%Z) as [Hm0 | Hm0].
    + assert (Hv0 : (v == 0)%Q) by (unfold v; rewrite Hm0; ring).
      rewrite Hv0. change (Qabs 0) with 0%Q. pose proof (Qabs_nonneg q). lra.
    + assert (Hhalf : (pow2 u * (1 # 2) <= Qabs q)%Q).
      { assert (Hy : ((1 # 2) <= Qabs (q / pow2 u))%Q).
        { apply Qnot_lt_le. intros Hy.
          apply Hm0. unfold m.
          assert (Hb : (- (1 # 2) < q / pow2 u < 1 # 2)%Q).
          { pose proof (Qle_Qabs (q / pow2 u)). pose proof (Qle_Qabs (- (q / pow2 u))).
            rewrite Qabs_opp in *. lra. }
          assert (Z1 : (inject_Z m < 1)%Q) by lra.
          assert (Z2 : (-1 < inject_Z m)%Q) by lra.
          change 1%Q with (inject_Z 1) in Z1. change (-1)%Q with (inject_Z (-1)) in Z2.
          rewrite <- Zlt_Qlt in Z1, Z2. fold m. lia. }
        assert (Habs : (Qabs (q / pow2 u) == Qabs q / pow2 u)%Q).
        { unfold Qdiv. rewrite Qabs_Qmult.
          rewrite (Qabs_pos (/ pow2 u)); [reflexivity|].
          apply Qlt_le_weak, Qinv_lt_0_compat, Hu. }
        rewrite Habs in Hy.
        assert (Hq' : (Qabs q == Qabs q / pow2 u * pow2 u)%Q) by (field; lra).
        set (z := (Qabs q / pow2 u)%Q) in *.
        assert (H1 : ((1 # 2) * pow2 u <= z * pow2 u)%Q)
          by (apply Qmult_le_compat_r; [exact Hy | lra]).
        lra. }
      lra.
Qed.

(** A number that is not negative rounds to one that is not negative. *)
Lemma round_double_nonneg (q : Q) : (0 <= q)%Q → py_ge (round_double q) 0 = true.
Proof.
  intros Hq.
  destruct (round_double_cases q) as [(v & -> & _ & _ & Hv & _)|[(-> & _)|(_ & Hn & _)]].
  - cbn [py_ge]. apply Qle_bool_iff. now apply Hv.
  - reflexivity.
  - lra.
Qed.

(** A number below [2 ^ 1023] rounds to a finite double. *)
Lemma round_double_finite (q : Q) :
  (Qabs q < pow2 1023)%Q → ∃ v, round_double q = Num v ∧ (Qabs v < pow2 1024)%Q.
Proof.
  intros Hq. destruct (round_double_cases q) as [(v & Hv & Hlt & _)|[(_ & _ & H)|(_ & _ & H)]].
  - eauto.
  - lra.
  - lra.
Qed.

Lemma Qred_inject_Z (n : Z) : Qred (inject_Z n) = inject_Z n.
Proof.
  unfold Qred, inject_Z.
  pose proof (Z.ggcd_gcd n 1) as Hg. pose proof (Z.ggcd_correct_divisors n 1) as Hd.
  destruct (Z.ggcd n 1) as [g [a b]]. cbn [fst snd] in *.
  rewrite Z.gcd_1_r in Hg. subst g. destruct Hd as [Ha Hb].
  rewrite Z.mul_1_l in Ha, Hb. subst a b. reflexivity.
Qed.

(** The integers up to [2 ^ 53] are doubles. *)
Lemma round_double_int (n : Z) :
  (0 <= n < 2 ^ 53)%Z → round_double (inject_Z n) = Num (inject_Z n).
Proof.
  intros [Hn0 Hn]. destruct (Z.eq_dec n 0%Z) as [->|Hnz]; [reflexivity|].
  assert (Hpos : (0 < n)%Z) by lia.
  unfold round_double.
  assert (Hz : Qeq_bool (inject_Z n) 0 = false).
  { destruct (Qeq_bool (inject_Z n) 0) eqn:E; [|reflexivity].
    apply Qeq_bool_eq in E. unfold Qeq in E. cbn [inject_Z Qnum Qden] in E. lia. }
  rewrite Hz.
  pose proof (Z.log2_spec n Hpos) as [Hl1 Hl2]. pose proof (Z.log2_nonneg n) as Hl0.
  assert (Hl : (Z.log2 n < 53)%Z) by (apply Z.log2_lt_pow2; lia).
  assert (He : ilog2 (inject_Z n) = Z.log2 n).
  { unfold ilog2. change (inject_Z n) with (n # 1). cbn [Qnum Qden].
    rewrite Z.abs_eq by lia.
    change (Z.log2 1) with 0%Z. rewrite Z.sub_0_r.
    assert (Hb : Qle_bool (pow2 (Z.log2 n)) (Qabs (n # 1)) = true).
    { apply Qle_bool_iff. rewrite pow2_Z by lia.
      change (n # 1) with (inject_Z n). rewrite Qabs_pos.
      - now rewrite <- Zle_Qle.
      - change 0%Q with (inject_Z 0). rewrite <- Zle_Qle. lia. }
    now rewrite Hb. }
  rewrite He. rewrite Z.max_l by lia.
  set (k := (52 - Z.log2 n)%Z).
  assert (Hk : (0 <= k)%Z) by (unfold k; lia).
  assert (Hu : (pow2 (Z.log2 n - 52) == 1 / inject_Z (2 ^ k))%Q).
  { replace (Z.log2 n - 52)%Z with (0 - k)%Z by (unfold k; lia).
    rewrite pow2_sub, (pow2_Z k) by lia. reflexivity. }
  assert (H2k : (0 < inject_Z (2 ^ k))%Q).
  { change 0%Q with (inject_Z 0). rewrite <- Zlt_Qlt. apply Z.pow_pos_nonneg; lia. }
  assert (Hm : round_half_even (inject_Z n / pow2 (Z.log2 n - 52)) = (n * 2 ^ k)%Z).
  { rewrite <- round_half_even_Z. apply round_half_even_comp.
    rewrite Hu, inject_Z_mult. field. lra. }
  rewrite Hm.
  assert (Hv : (inject_Z (n * 2 ^ k) * pow2 (Z.log2 n - 52) == inject_Z n)%Q).
  { rewrite Hu, inject_Z_mult. field. lra. }
  assert (Hfin : Qle_bool (pow2 1024) (Qabs (inject_Z (n * 2 ^ k) * pow2 (Z.log2 n - 52))) = false).
  { destruct (Qle_bool _ _) eqn:E; [|reflexivity]. exfalso.
    apply Qle_bool_iff in E. rewrite Hv in E.
    rewrite Qabs_pos in E by (change 0%Q with (inject_Z 0); rewrite <- Zle_Qle; lia).
    rewrite (pow2_Z 1024) in E by lia. rewrite <- Zle_Qle in E.
    assert ((2 ^ 53 < 2 ^ 1024)%Z) by (apply Z.pow_lt_mono_r; lia). lia. }
  rewrite Hfin. f_equal.
  rewrite (Qred_complete _ _ Hv). apply Qred_inject_Z.
Qed.

End DoubleFacts.


(** ** Health classification *)

Section HealthFacts.
Import Health.

Lemma py_ge_true (d : pynum) (n : Z) :
  py_ge d n = true ↔ num_le (Num (inject_Z n)) d.
Proof.
  destruct d; simpl; try (split; [discriminate | tauto]); try tauto.
  apply Qle_bool_iff.
Qed.

Lemma py_ge_false (d : pynum) (n : Z) :
  num_lt d (Num (inject_Z n)) → py_ge d n = false.
Proof.
  destruct d; simpl; try tauto.
  intros H. destruct (Qle_bool (inject_Z n) q) eqn:E; [|reflexivity].
  apply Qle_bool_iff in E. exfalso. exact (Qlt_not_le _ _ H E).
Qed.

Lemma num_le_trans (x y z : pynum) : num_le x y → num_le y z → num_le x z.
Proof.
  destruct x, y, z; simpl; try tauto. apply Qle_trans.
Qed.

Lemma py_ge_mono (x y : pynum) (n : Z) :
  num_le x y → py_ge x n = true → py_ge y n = true.
Proof.
  intros Hxy Hx. apply py_ge_true. apply py_ge_true in Hx.
  exact (num_le_trans _ _ _ Hx Hxy).
Qed.

(** C2: [compute_health] is a function of the download figure alone, with
    inclusive lower bounds: at least 100 is Excellent, at least 50 and below
    100 is Good, at least 10 and below 50 is Fair, below 10 (zero and
    negative figures too) is Weak, and no figure is Unknown. *)
Theorem compute_health_tiers (d : pynum) :
  (num_le (Num 100) d → compute_health (Some d) = ("Excellent", "text-green-400")) ∧
  (num_le (Num 50) d → num_lt d (Num 100) →
     compute_health (Some d) = ("Good", "text-yellow-400")) ∧
  (num_le (Num 10) d → num_lt d (Num 50) →
     compute_health (Some d) = ("Fair", "text-orange-400")) ∧
  (num_lt d (Num 10) → compute_health (Some d) = ("Weak", "text-red-500")) ∧
  compute_health None = ("Unknown", "text-gray-400").
Proof.
  unfold compute_health. repeat split.
  - intros H. apply (py_ge_true d 100) in H. now rewrite H.
  - intros H1 H2. apply (py_ge_true d 50) in H1. apply (py_ge_false d 100) in H2.
    now rewrite H2, H1.
  - intros H1 H2. apply (py_ge_true d 10) in H1. apply (py_ge_false d 50) in H2.
    assert (H3 : py_ge d 100 = false).
    { destruct (py_ge d 100) eqn:E; [|reflexivity].
      rewrite (py_ge_mono (Num 100) d 50) in H2; [discriminate| |reflexivity].
      now apply py_ge_true in E. }
    now rewrite H3, H2, H1.
  - intros H.
    assert (H10 : py_ge d 10 = false) by now apply py_ge_false.
    assert (H50 : py_ge d 50 = false).
    { destruct (py_ge d 50) eqn:E; [|reflexivity].
      rewrite (py_ge_mono (Num 50) d 10) in H10; [discriminate| |reflexivity].
      now apply py_ge_true in E. }
    assert (H100 : py_ge d 100 = false).
    { destruct (py_ge d 100) eqn:E; [|reflexivity].
      rewrite (py_ge_mono (Num 100) d 10) in H10; [discriminate| |reflexivity].
      now apply py_ge_true in E. }
    now rewrite H100, H50, H10.
Qed.

Ltac q_order := vm_compute; first [ exact I | reflexivity | intro; discriminate ].

Lemma compute_health_tiers_witness :
  fst (compute_health (Some (Num 100))) = "Excellent" ∧
  fst (compute_health (Some (Num 99.99))) = "Good" ∧
  fst (compute_health (Some (Num 50))) = "Good" ∧
  fst (compute_health (Some (Num 49.99))) = "Fair" ∧
  fst (compute_health (Some (Num 10))) = "Fair" ∧
  fst (compute_health (Some (Num 9.99))) = "Weak" ∧
  fst (compute_health (Some (Num 0))) = "Weak" ∧
  fst (compute_health (Some (Num (-3)))) = "Weak" ∧
  fst (compute_health (Some PosInf)) = "Excellent" ∧
  fst (compute_health (Some NegInf)) = "Weak".
Proof.
  split.
  { rewrite (proj1 (compute_health_tiers (Num 100))); [reflexivity | q_order]. }
  split.
  { rewrite (proj1 (proj2 (compute_health_tiers (Num 99.99))));
        [reflexivity | q_order | q_order]. }
  split.
  { rewrite (proj1 (proj2 (compute_health_tiers (Num 50))));
        [reflexivity | q_order | q_order]. }
  split.
  { rewrite (proj1 (proj2 (proj2 (compute_health_tiers (Num 49.99)))));
        [reflexivity | q_order | q_order]. }
  split.
  { rewrite (proj1 (proj2 (proj2 (compute_health_tiers (Num 10)))));
        [reflexivity | q_order | q_order]. }
  split.
  { rewrite (proj1 (proj2 (proj2 (proj2 (compute_health_tiers (Num 9.99))))));
        [reflexivity | q_order]. }
  split.
  { rewrite (proj1 (proj2 (proj2 (proj2 (compute_health_tiers (Num 0))))));
        [reflexivity | q_order]. }
  split.
  { rewrite (proj1 (proj2 (proj2 (proj2 (compute_health_tiers (Num (-3)))))));
        [reflexivity | q_order]. }
  split.
  { rewrite (proj1 (compute_health_tiers PosInf)); [reflexivity | q_order]. }
  rewrite (proj1 (proj2 (proj2 (proj2 (compute_health_tiers NegInf)))));
      [reflexivity | q_order].
Defined.

(** C8: [compute_health] is monotone: a download figure that is not smaller
    gets a label that is not lower in the order Weak < Fair < Good <
    Excellent. *)
Theorem compute_health_monotone (x y : pynum) :
  num_le x y →
  tier_le (fst (compute_health (Some x))) (fst (compute_health (Some y))).
Proof.
  intros Hxy. unfold compute_health.
  pose proof (py_ge_mono x y 100 Hxy) as M100.
  pose proof (py_ge_mono x y 50 Hxy) as M50.
  pose proof (py_ge_mono x y 10 Hxy) as M10.
  destruct (py_ge x 100); [rewrite M100 by reflexivity; vm_compute; lia|].
  destruct (py_ge x 50); [rewrite M50 by reflexivity|].
  { destruct (py_ge y 100); vm_compute; lia. }
  destruct (py_ge x 10); [rewrite M10 by reflexivity|].
  { destruct (py_ge y 100), (py_ge y 50); vm_compute; lia. }
  destruct (py_ge y 100), (py_ge y 50), (py_ge y 10); vm_compute; lia.
Qed.

Lemma compute_health_monotone_witness :
  tier_le (fst (compute_health (Some (Num 9.99)))) (fst (compute_health (Some (Num 120)))).
Proof.
  apply (compute_health_monotone (Num 9.99) (Num 120)). q_order.
Defined.

End HealthFacts.

(** ** Matching *)

Section RegexFacts.
Import Regex.

Lemma greedy_takes_all {R} (p : ascii -> bool)
    (k : list ascii -> option ascii -> list ascii -> option R) (s1 s2 : list ascii) :
  ∀ acc prev r,
    forallb p s1 = true → stops p s2 →
    k (acc ++ s1) (prev_after prev s1) s2 = Some r →
    greedy p k acc prev (s1 ++ s2) = Some r.
Proof.
  induction s1 as [|x s1 IH]; intros acc prev r Hall Hstop Hk; simpl in *.
  - rewrite app_nil_r in Hk. destruct s2 as [|y s2]; simpl; [exact Hk|].
    simpl in Hstop. now rewrite Hstop.
  - apply andb_prop in Hall as [Hx Hall]. rewrite Hx.
    rewrite (IH (acc ++ [x]) (Some x) r Hall Hstop); [reflexivity|].
    now rewrite <- app_assoc.
Qed.

Lemma search_from_skip (f : flags) (r : list node) (pre rest : list ascii) :
  ∀ prev, no_match_before f r prev pre rest = true →
    search_from f r prev (pre ++ rest) = search_from f r (prev_after prev pre) rest.
Proof.
  induction pre as [|x pre IH]; intros prev H; simpl in *; [reflexivity|].
  destruct (match_here f r [] prev (x :: pre ++ rest)); [discriminate|].
  now apply IH.
Qed.

Lemma search_from_here (f : flags) (r : list node) (prev : option ascii)
    (s g : list ascii) :
  match_here f r [] prev s = Some g → search_from f r prev s = Some g.
Proof. intros H. destruct s; simpl; now rewrite H. Qed.

(** A literal, read without regard to case. *)
Lemma match_lit_nocase (word : string) (r : list node) (kw rest : list ascii) :
  ∀ cap prev,
    map ascii_lower kw = map ascii_lower (list_ascii_of_string word) →
    match_here {| ignorecase := true; multiline := false |} (lit word ++ r) cap prev
      (kw ++ rest)
    = match_here {| ignorecase := true; multiline := false |} r cap
        (prev_after prev kw) rest.
Proof.
  unfold lit. revert kw.
  induction (list_ascii_of_string word) as [|c w IH]; intros kw cap prev H.
  - destruct kw; [reflexivity | discriminate].
  - destruct kw as [|x kw]; [discriminate|]. simpl in H. injection H as Hx Hkw.
    cbn [map app match_here repeat_q ignorecase cmatch].
    rewrite Hx, Ascii.eqb_refl. now rewrite IH.
Qed.

(** A repeated class takes all of [s1] when the text then leaves the class. *)
Lemma match_star (f : flags) (c : cset) (r : list node) (s1 s2 : list ascii) :
  ∀ cap prev g,
    forallb (cmatch (ignorecase f) c) s1 = true →
    stops (cmatch (ignorecase f) c) s2 →
    match_here f r cap (prev_after prev s1) s2 = Some g →
    match_here f (Atom c Star :: r) cap prev (s1 ++ s2) = Some g.
Proof.
  intros cap prev g Hall Hstop Hk. cbn [match_here repeat_q].
  now apply greedy_takes_all.
Qed.

Lemma match_group_plus (f : flags) (c : cset) (r : list node) (s1 s2 : list ascii) :
  ∀ cap prev g,
    s1 ≠ [] →
    forallb (cmatch (ignorecase f) c) s1 = true →
    stops (cmatch (ignorecase f) c) s2 →
    match_here f r s1 (prev_after prev s1) s2 = Some g →
    match_here f (Group c Plus :: r) cap prev (s1 ++ s2) = Some g.
Proof.
  intros cap prev g Hne Hall Hstop Hk. destruct s1 as [|x s1]; [congruence|].
  cbn [match_here repeat_q app]. simpl in Hall.
  apply andb_prop in Hall as [Hx Hall]. rewrite Hx.
  now apply (greedy_takes_all _ _ s1 s2 [x] (Some x)).
Qed.

End RegexFacts.

(** ** The prober *)

Section ProberFacts.
Import Regex Prober.

Ltac ascii_cases x :=
  destruct x as [[] [] [] [] [] [] [] []]; vm_compute; try reflexivity; try discriminate.

Lemma stops_app (p : ascii -> bool) (a b : list ascii) :
  forallb (fun x => negb (p x)) a = true → stops p b → stops p (a ++ b).
Proof.
  destruct a as [|x a]; simpl; [tauto|].
  intros H _. apply andb_prop in H as [H _]. now destruct (p x).
Qed.

Lemma forallb_impl {A} (p q : A -> bool) (l : list A) :
  (∀ x, p x = true → q x = true) → forallb p l = true → forallb q l = true.
Proof.
  intros Hpq. induction l as [|x l IH]; simpl; [reflexivity|].
  intros H. apply andb_prop in H as [Hx Hl]. now rewrite (Hpq x Hx), IH.
Qed.

Lemma figure_char_cmatch (x : ascii) :
  cmatch true (CUnion CDigit (CChar ".")) x = figure_char x.
Proof. ascii_cases x. Qed.

Lemma space_not_figure (x : ascii) : is_space x = true → negb (figure_char x) = true.
Proof. ascii_cases x. Qed.

Lemma figure_not_space (x : ascii) : figure_char x = true → is_space x = false.
Proof. ascii_cases x. Qed.

Lemma digit_not_m (x : ascii) : ascii_lower x = "m"%char → is_digit x = false.
Proof. ascii_cases x. Qed.

Lemma figure_not_m (x : ascii) : ascii_lower x = "m"%char → figure_char x = false.
Proof. ascii_cases x. Qed.

Lemma space_not_m (x : ascii) : ascii_lower x = "m"%char → is_space x = false.
Proof. ascii_cases x. Qed.

Lemma match_one (f : flags) (c : cset) (r : list node) (x : ascii) (s : list ascii)
    (cap : list ascii) (prev : option ascii) :
  cmatch (ignorecase f) c x = true →
  match_here f (Atom c One :: r) cap prev (x :: s) = match_here f r cap (Some x) s.
Proof. intros H. cbn [match_here repeat_q]. now rewrite H. Qed.

Lemma time_figure_matches (kw ws1 num ws2 unit_ post : list ascii) (sep : ascii)
    (prev : option ascii) :
  map ascii_lower kw = list_ascii_of_string "time" →
  sep = "="%char ∨ sep = "<"%char →
  forallb is_space ws1 = true →
  num ≠ [] → forallb figure_char num = true →
  forallb is_space ws2 = true →
  map ascii_lower unit_ = list_ascii_of_string "ms" →
  match_here re_ignorecase _ping_time_re [] prev
    (kw ++ sep :: ws1 ++ num ++ ws2 ++ unit_ ++ post) = Some num.
Proof.
  intros Hkw Hsep Hws1 Hne Hnum Hws2 Hunit.
  destruct unit_ as [|u1 [|u2 [|? ?]]]; try discriminate.
  injection Hunit as Hu1 Hu2.
  unfold _ping_time_re, re_ignorecase.
  rewrite (match_lit_nocase "time") by exact Hkw.
  cbn [app].
  rewrite match_one by (destruct Hsep; subst sep; reflexivity).
  apply match_star; cbn [ignorecase cmatch].
  { exact Hws1. }
  { destruct num as [|x num]; [congruence|]. simpl in Hnum |- *.
    apply andb_prop in Hnum as [Hx _]. now apply figure_not_space. }
  apply match_group_plus; cbn [ignorecase].
  { exact Hne. }
  { eapply forallb_impl; [|exact Hnum]. intros x Hx. now rewrite figure_char_cmatch. }
  { apply stops_app.
    - eapply forallb_impl; [|exact Hws2]. intros x Hx. cbv beta.
      rewrite figure_char_cmatch. now apply space_not_figure.
    - cbn [stops]. rewrite figure_char_cmatch. now apply figure_not_m. }
  apply match_star; cbn [ignorecase cmatch].
  { exact Hws2. }
  { simpl. now apply space_not_m. }
  change (u1 :: u2 :: post) with ([u1; u2] ++ post).
  rewrite (match_lit_nocase "ms" []); [reflexivity|].
  simpl. now rewrite Hu1, Hu2.
Qed.

Lemma average_figure_matches (kw num unit_ post : list ascii) (prev : option ascii) :
  map ascii_lower kw = list_ascii_of_string "average = " →
  num ≠ [] → forallb is_digit num = true →
  map ascii_lower unit_ = list_ascii_of_string "ms" →
  match_here re_ignorecase _windows_avg_re [] prev (kw ++ num ++ unit_ ++ post)
  = Some num.
Proof.
  intros Hkw Hne Hnum Hunit.
  destruct unit_ as [|u1 [|u2 [|? ?]]]; try discriminate.
  injection Hunit as Hu1 Hu2.
  unfold _windows_avg_re, re_ignorecase.
  rewrite (match_lit_nocase "Average = ") by exact Hkw.
  cbn [app].
  apply match_group_plus; cbn [ignorecase cmatch].
  { exact Hne. }
  { exact Hnum. }
  { simpl. now apply digit_not_m. }
  change (u1 :: u2 :: post) with ([u1; u2] ++ post).
  rewrite (match_lit_nocase "ms" []); [reflexivity|].
  simpl. now rewrite Hu1, Hu2.
Qed.

Lemma split_dot_digits (ip rest : list ascii) :
  forallb is_digit ip = true →
  split_dot (ip ++ "."%char :: rest) = (ip, Some rest).
Proof.
  induction ip as [|x ip IH]; simpl; intros H; [reflexivity|].
  apply andb_prop in H as [Hx H]. rewrite (IH H).
  assert (E : Ascii.eqb x "." = false) by (revert Hx; ascii_cases x).
  now rewrite E.
Qed.

Lemma split_dot_nodot (ip : list ascii) :
  forallb is_digit ip = true → split_dot ip = (ip, None).
Proof.
  induction ip as [|x ip IH]; simpl; intros H; [reflexivity|].
  apply andb_prop in H as [Hx H]. rewrite (IH H).
  assert (E : Ascii.eqb x "." = false) by (revert Hx; ascii_cases x).
  now rewrite E.
Qed.

(** [float] of a decimal numeral is the double nearest to the number it
    denotes. *)
Lemma py_float_decimal (ip fp : list ascii) :
  forallb is_digit ip = true → forallb is_digit fp = true →
  ip ++ fp ≠ [] →
  py_float (string_of_list_ascii (ip ++ "."%char :: fp))
  = Some (round_double (decimal_value ip fp)).
Proof.
  intros Hip Hfp Hne. unfold py_float.
  rewrite list_ascii_of_string_of_list_ascii, (split_dot_digits ip fp Hip).
  cbv beta iota zeta. rewrite Hip, Hfp.
  destruct ip, fp; simpl in Hne; try congruence; reflexivity.
Qed.

Lemma py_float_integer (ip : list ascii) :
  forallb is_digit ip = true → ip ≠ [] →
  py_float (string_of_list_ascii ip) = Some (round_double (decimal_value ip [])).
Proof.
  intros Hip Hne. unfold py_float.
  rewrite list_ascii_of_string_of_list_ascii, (split_dot_nodot ip Hip).
  cbv beta iota zeta. cbn [forallb andb]. rewrite Hip.
  destruct ip; [congruence|reflexivity].
Qed.

(** A whole numeral below [2 ^ 53] is a double: [float] returns it as it is. *)
Lemma round_double_numeral (ds : list ascii) :
  (decimal_value ds [] < inject_Z (2 ^ 53))%Q →
  round_double (decimal_value ds []) = Num (decimal_value ds []).
Proof.
  unfold decimal_value. cbn [length pow10]. rewrite app_nil_r.
  change (Z.of_N (digits_value ds) # 1) with (inject_Z (Z.of_N (digits_value ds))).
  rewrite <- Zlt_Qlt. intros H. apply round_double_int. lia.
Qed.

Lemma search_first (f : flags) (r : list node) (text : string)
    (pre fig g : list ascii) :
  list_ascii_of_string text = pre ++ fig →
  no_match_before f r None pre fig = true →
  match_here f r [] (prev_after None pre) fig = Some g →
  search f r text = Some (string_of_list_ascii g).
Proof.
  intros Htext Hpre Hfig. unfold search.
  rewrite Htext, (search_from_skip f r pre fig None Hpre).
  now rewrite (search_from_here f r _ fig g Hfig).
Qed.

(** *** The command line *)

Lemma count_digits_pos (fuel : nat) (n : Z) : (1 <= count_digits (S fuel) n)%Z.
Proof.
  revert n. induction fuel as [|f IH]; intros n; cbn [count_digits] in *.
  - destruct (n <? 10)%Z; lia.
  - destruct (n <? 10)%Z; [lia|]. specialize (IH (n / 10)%Z).
    destruct (n / 10 <? 10)%Z; lia.
Qed.

(** [count_digits] counts the digits when the fuel is at least the number
    of bits. *)
Lemma count_digits_spec (fuel : nat) (n k : Z) :
  (0 <= n < 2 ^ Z.of_nat (S fuel))%Z → (1 <= k)%Z →
  (count_digits (S fuel) n <= k ↔ n < 10 ^ k)%Z.
Proof.
  revert n k. induction fuel as [|f IH]; intros n k Hn Hk.
  - cbn [count_digits]. change (2 ^ Z.of_nat 1)%Z with 2%Z in Hn.
    assert (H10 : (10 ^ 1 <= 10 ^ k)%Z) by (apply Z.pow_le_mono_r; lia).
    destruct (Z.ltb_spec n 10); lia.
  - change (count_digits (S (S f)) n)
      with (if (n <? 10)%Z then 1%Z else (1 + count_digits (S f) (n / 10))%Z).
    assert (H10 : (10 ^ 1 <= 10 ^ k)%Z) by (apply Z.pow_le_mono_r; lia).
    destruct (Z.ltb_spec n 10) as [Hlt|Hge]; [lia|].
    pose proof (count_digits_pos f (n / 10)) as Hpos.
    assert (Hdiv : (0 <= n / 10 < 2 ^ Z.of_nat (S f))%Z).
    { split; [apply Z.div_pos; lia|].
      apply Z.div_lt_upper_bound; [lia|].
      replace (Z.of_nat (S (S f))) with (Z.succ (Z.of_nat (S f))) in Hn by lia.
      rewrite Z.pow_succ_r in Hn by lia. lia. }
    destruct (Z.eq_dec k 1%Z) as [->|Hk1].
    + change (10 ^ 1)%Z with 10%Z. lia.
    + assert (Hpow : (10 ^ k = 10 * 10 ^ (k - 1))%Z).
      { replace k with (Z.succ (k - 1)) at 1 by lia. apply Z.pow_succ_r. lia. }
      split; intros H.
      * assert ((n / 10 < 10 ^ (k - 1))%Z) by (apply IH; [exact Hdiv | lia | lia]).
        rewrite Hpow. pose proof (Z.div_mod n 10 ltac:(lia)).
        pose proof (Z.mod_pos_bound n 10 ltac:(lia)). lia.
      * assert (Hq : (n / 10 < 10 ^ (k - 1))%Z).
        { apply Z.div_lt_upper_bound; [lia|]. now rewrite <- Hpow. }
        apply (IH (n / 10)%Z (k - 1)%Z Hdiv) in Hq; lia.
Qed.

(** [str] raises exactly on the numerals of more than 4300 digits. *)
Lemma num_digits_spec (n k : Z) : (1 <= k)%Z → (num_digits n <= k ↔ Z.abs n < 10 ^ k)%Z.
Proof.
  intros Hk. unfold num_digits. apply count_digits_spec; [|exact Hk].
  pose proof (Z.abs_nonneg n) as H0. pose proof (Z.log2_nonneg (Z.abs n)) as Hl.
  rewrite Nat2Z.inj_succ, Z2Nat.id by exact Hl.
  split; [exact H0|]. destruct (Z.eq_dec (Z.abs n) 0%Z) as [->|Hnz].
  - reflexivity.
  - apply Z.log2_spec. lia.
Qed.

Lemma py_str_small (n : Z) : (Z.abs n < 10 ^ 4300)%Z → py_str n = inr (pretty n).
Proof.
  intros H. unfold py_str, int_max_str_digits.
  apply (num_digits_spec n 4300 ltac:(discriminate)) in H.
  apply Z.leb_le in H. now rewrite H.
Qed.

Lemma quot_abs_le (a : Z) (d : positive) (b : Z) :
  (Qabs (a # d) <= inject_Z b)%Q → (Z.abs (Z.quot a (Zpos d)) <= b)%Z.
Proof.
  unfold Qabs, Qle. cbn [Qnum Qden inject_Z]. rewrite Z.mul_1_r. intros H.
  rewrite <- Z.quot_abs by discriminate. change (Z.abs (Zpos d)) with (Zpos d).
  rewrite Z.quot_div_nonneg by lia.
  apply Z.div_le_upper_bound; lia.
Qed.

(** Line 44 builds its command line for every sane timeout. *)
Lemma ping_cmd_sane (sys host : string) (timeout : pyval) :
  sane_timeout timeout → ∃ cmd, ping_cmd sys host timeout = inr cmd.
Proof.
  assert (P4003 : (10 ^ 4000 * 1000 < 10 ^ 4300)%Z) by (vm_compute; reflexivity).
  assert (P4000 : (10 ^ 4000 < 10 ^ 4300)%Z) by (vm_compute; reflexivity).
  assert (P300 : (10 ^ 300 < 10 ^ 4300)%Z) by (vm_compute; reflexivity).
  assert (P1024 : (2 ^ 1024 < 10 ^ 4300)%Z) by (vm_compute; reflexivity).
  unfold ping_cmd. destruct timeout as [z|[q| | |]]; cbn [sane_timeout]; try tauto; intros H.
  - destruct (String.eqb (lower sys) "windows"); cbn [mul_1000 py_int].
    + rewrite py_str_small; [eauto|]. rewrite Z.abs_mul. change (Z.abs 1000) with 1000%Z.
      eapply Z.lt_trans; [|exact P4003].
      apply (proj1 (Z.mul_lt_mono_pos_r 1000 _ _ eq_refl)). exact H.
    + rewrite py_str_small; [eauto|]. eapply Z.lt_trans; [exact H | exact P4000].
  - destruct (String.eqb (lower sys) "windows"); cbn [mul_1000 py_int].
    + destruct (round_double_finite (q * 1000)) as (v & -> & Hv).
      { rewrite Qabs_Qmult. change (Qabs 1000) with 1000%Q.
        eapply Qle_lt_trans; [apply Qmult_le_compat_r; [exact H | discriminate]|].
        vm_compute. reflexivity. }
      rewrite py_str_small; [eauto|].
      eapply Z.le_lt_trans; [|exact P1024]. destruct v as [a d].
      apply quot_abs_le. rewrite <- pow2_Z by discriminate. now apply Qlt_le_weak.
    + rewrite py_str_small; [eauto|].
      eapply Z.le_lt_trans; [|exact P300]. destruct q as [a d].
      now apply quot_abs_le.
Qed.




(** C5: when [ping] exits with code 0 the result is always [(True, _)].
    When the first place where the time pattern matches is a figure
    [time=<num>ms] (in any case, with [=] or [<], white space allowed around
    the number), the latency is [float(num)], which for a decimal numeral is
    the double nearest to the number it denotes, and for a whole numeral
    below [2 ^ 53] that number itself.  When the time pattern matches
    nowhere and the first match of the Windows pattern is
    [Average = <digits>ms], the latency is the double nearest to that
    integer.  When neither pattern matches, the result is [(True, None)]. *)
Theorem ping_latency_success (sys : string) (run : list string → pyval → run_result)
    (host : string) (timeout : pyval) (cmd : list string) (stdout stderr : string) :
  ping_cmd sys host timeout = inr cmd →
  run cmd (add_1 timeout) = Completed 0 stdout stderr →
  let out := String.append stdout stderr in
  (∃ lat, ping_latency sys run host timeout = inr (true, lat)) ∧
  (∀ pre kw sep ws1 num ws2 unit_ post,
     list_ascii_of_string out = pre ++ kw ++ sep :: ws1 ++ num ++ ws2 ++ unit_ ++ post →
     no_match_before re_ignorecase _ping_time_re None pre
       (kw ++ sep :: ws1 ++ num ++ ws2 ++ unit_ ++ post) = true →
     map ascii_lower kw = list_ascii_of_string "time" →
     sep = "="%char ∨ sep = "<"%char →
     forallb is_space ws1 = true →
     num ≠ [] → forallb figure_char num = true →
     forallb is_space ws2 = true →
     map ascii_lower unit_ = list_ascii_of_string "ms" →
     ping_latency sys run host timeout
       = inr (true, py_float (string_of_list_ascii num)) ∧
     (∀ ip fp, num = ip ++ "."%char :: fp →
        forallb is_digit ip = true → forallb is_digit fp = true → ip ++ fp ≠ [] →
        ping_latency sys run host timeout
          = inr (true, Some (round_double (decimal_value ip fp)))) ∧
     (forallb is_digit num = true →
        ping_latency sys run host timeout
          = inr (true, Some (round_double (decimal_value num []))) ∧
        ((decimal_value num [] < inject_Z (2 ^ 53))%Q →
         ping_latency sys run host timeout
           = inr (true, Some (Num (decimal_value num [])))))) ∧
  (∀ pre kw num unit_ post,
     search re_ignorecase _ping_time_re out = None →
     list_ascii_of_string out = pre ++ kw ++ num ++ unit_ ++ post →
     no_match_before re_ignorecase _windows_avg_re None pre
       (kw ++ num ++ unit_ ++ post) = true →
     map ascii_lower kw = list_ascii_of_string "average = " →
     num ≠ [] → forallb is_digit num = true →
     map ascii_lower unit_ = list_ascii_of_string "ms" →
     ping_latency sys run host timeout
       = inr (true, Some (round_double (decimal_value num []))) ∧
     ((decimal_value num [] < inject_Z (2 ^ 53))%Q →
      ping_latency sys run host timeout
        = inr (true, Some (Num (decimal_value num []))))) ∧
  (search re_ignorecase _ping_time_re out = None →
   search re_ignorecase _windows_avg_re out = None →
   ping_latency sys run host timeout = inr (true, None)).
Proof.
  intros Hcmd Hrun out. unfold ping_latency. rewrite Hcmd, Hrun.
  cbn [Z.eqb]. cbv zeta. fold out.
  split.
  { destruct (search re_ignorecase _ping_time_re out) as [g|];
      [|destruct (search re_ignorecase _windows_avg_re out) as [g|]];
      try destruct (py_float g); eauto. }
  split; [|split].
  - intros pre kw sep ws1 num ws2 unit_ post Hout Hpre Hkw Hsep Hws1 Hne Hnum Hws2 Hunit.
    assert (Hs : search re_ignorecase _ping_time_re out
                 = Some (string_of_list_ascii num)).
    { eapply search_first; [exact Hout | exact Hpre |].
      now apply time_figure_matches. }
    rewrite Hs.
    split; [now destruct (py_float (string_of_list_ascii num))|]. split.
    + intros ip fp -> Hip Hfp Hnn. now rewrite py_float_decimal.
    + intros Hd. rewrite py_float_integer by assumption.
      split; [reflexivity|]. intros Hsmall. now rewrite round_double_numeral.
  - intros pre kw num unit_ post Hnone Hout Hpre Hkw Hne Hnum Hunit.
    assert (Hs : search re_ignorecase _windows_avg_re out
                 = Some (string_of_list_ascii num)).
    { eapply search_first; [exact Hout | exact Hpre |].
      now apply average_figure_matches. }
    rewrite Hnone, Hs. rewrite py_float_integer by assumption.
    split; [reflexivity|]. intros Hsmall. now rewrite round_double_numeral.
  - intros H1 H2. now rewrite H1, H2.
Qed.

Lemma ping_latency_success_witness :
  ping_latency "Linux"
    (fun _ _ => Completed 0 "64 bytes from 192.168.1.1: icmp_seq=1 ttl=64 time=23.4 ms" "")
    "192.168.1.1" (PyInt 2) = inr (true, Some (round_double 23.4)) ∧
  round_double 23.4 = Num (3293257227514675 # 140737488355328) ∧
  ping_latency "Windows"
    (fun _ _ => Completed 0 "Minimum = 3ms, Maximum = 3ms, Average = 3ms" "")
    "192.168.1.1" (PyInt 2) = inr (true, Some (Num 3)) ∧
  ping_latency "Linux"
    (fun _ _ => Completed 0 "1 packets transmitted, 1 received" "")
    "192.168.1.1" (PyInt 2) = inr (true, None).
Proof.
  split; [|split; [vm_compute; reflexivity|split]].
  - pose proof (ping_latency_success "Linux"
      (fun _ _ => Completed 0 "64 bytes from 192.168.1.1: icmp_seq=1 ttl=64 time=23.4 ms" "")
      "192.168.1.1" (PyInt 2) ["ping"; "-c"; "1"; "-W"; "2"; "192.168.1.1"]
      "64 bytes from 192.168.1.1: icmp_seq=1 ttl=64 time=23.4 ms" ""
      eq_refl eq_refl) as [_ [H _]].
    specialize (H (list_ascii_of_string "64 bytes from 192.168.1.1: icmp_seq=1 ttl=64 ")
                  (list_ascii_of_string "time") "="%char []
                  (list_ascii_of_string "23.4") (list_ascii_of_string " ")
                  (list_ascii_of_string "ms") []
                  eq_refl eq_refl eq_refl (or_introl eq_refl) eq_refl
                  ltac:(discriminate) eq_refl eq_refl eq_refl).
    destruct H as [_ [H _]].
    exact (H (list_ascii_of_string "23") (list_ascii_of_string "4")
             eq_refl eq_refl eq_refl ltac:(discriminate)).
  - pose proof (ping_latency_success "Windows"
      (fun _ _ => Completed 0 "Minimum = 3ms, Maximum = 3ms, Average = 3ms" "")
      "192.168.1.1" (PyInt 2) ["ping"; "-n"; "1"; "-w"; "2000"; "192.168.1.1"]
      "Minimum = 3ms, Maximum = 3ms, Average = 3ms" ""
      eq_refl eq_refl) as [_ [_ [H _]]].
    refine (proj2 (H (list_ascii_of_string "Minimum = 3ms, Maximum = 3ms, ")
             (list_ascii_of_string "Average = ") (list_ascii_of_string "3")
             (list_ascii_of_string "ms") []
             eq_refl eq_refl eq_refl eq_refl ltac:(discriminate) eq_refl eq_refl) _).
    reflexivity.
  - pose proof (ping_latency_success "Linux"
      (fun _ _ => Completed 0 "1 packets transmitted, 1 received" "")
      "192.168.1.1" (PyInt 2) ["ping"; "-c"; "1"; "-W"; "2"; "192.168.1.1"]
      "1 packets transmitted, 1 received" ""
      eq_refl eq_refl) as [_ [_ [_ H]]].
    exact (H eq_refl eq_refl).
Defined.

End ProberFacts.

(** ** The SSID lookup and the speed-test gateway *)

Section GatewayFacts.
Import Regex Prober Exn Ssid Speedtest Health.

Lemma get_current_ssid_returns (sys : string) (check_output : list string → result string) :
  ∃ s, get_current_ssid sys check_output = inr s.
Proof.
  unfold get_current_ssid.
  destruct (ssid_try check_output (lower sys)) as [e|[s|]]; simpl; eauto.
Qed.

Lemma run_speedtest_returns (lib : speedtest_lib) :
  ∃ r, run_speedtest lib = inr r.
Proof.
  unfold run_speedtest, try_except.
  match goal with |- ∃ r, match ?c with _ => _ end = _ => destruct c end; eauto.
Qed.

Lemma run_speedtest_failure (lib : speedtest_lib) :
  speedtest_fails lib → run_speedtest lib = inr (None, None, None).
Proof.
  unfold speedtest_fails, run_speedtest, try_except, bind.
  destruct (new_Speedtest lib), (get_best_server lib), (download lib), (upload lib),
    (results_ping lib); try reflexivity.
  intros [[e H]|[[e H]|[[e H]|[[e H]|[e H]]]]]; discriminate.
Qed.

(** C6: when the speed-test library raises at any stage, [run_speedtest]
    returns three [None]s, and [api_speedtest] still returns its payload,
    with the three figures [None] and the health label "Unknown". *)
Theorem speedtest_failure (sys : string) (check_output : list string → result string)
    (lib : speedtest_lib) (now : string) :
  speedtest_fails lib →
  run_speedtest lib = inr (None, None, None) ∧
  ∃ p, api_speedtest sys check_output lib now = inr p ∧
       download_mbps p = None ∧ upload_mbps p = None ∧ ping_ms p = None ∧
       health p = "Unknown" ∧ health_color p = "text-gray-400" ∧ time p = now.
Proof.
  intros Hfail. pose proof (run_speedtest_failure lib Hfail) as Hrun.
  split; [exact Hrun|].
  destruct (get_current_ssid_returns sys check_output) as [s Hs].
  unfold api_speedtest. rewrite Hs, Hrun. simpl. eexists. split; [reflexivity|].
  simpl. tauto.
Qed.

Lemma speedtest_failure_witness :
  run_speedtest
    {| new_Speedtest := inr tt; get_best_server := inl (OtherException "ConfigRetrievalError");
       download := inr (Num 94000000); upload := inr (Num 11000000);
       results_ping := inr (Num 12) |} = inr (None, None, None).
Proof.
  apply (speedtest_failure "Linux" (fun _ => inr "home") _ "2025-01-01 00:00:00").
  right. left. eexists. reflexivity.
Defined.

(** C9: [get_current_ssid] always returns a name, no exception leaves it.
    It returns "Unknown" when the platform is none of Windows, Linux and
    macOS, when the command of the platform raises, and when the output of
    [netsh] or [airport] names no SSID.  [api_speedtest] returns its payload
    whatever the lookup did. *)
Theorem ssid_lookup_failure (sys : string) (check_output : list string → result string) :
  (∃ s, get_current_ssid sys check_output = inr s) ∧
  (lower sys ≠ "windows" → lower sys ≠ "linux" → lower sys ≠ "darwin" →
     get_current_ssid sys check_output = inr "Unknown") ∧
  (∀ e, lower sys = "windows" →
     check_output ["netsh"; "wlan"; "show"; "interfaces"] = inl e →
     get_current_ssid sys check_output = inr "Unknown") ∧
  (∀ e, lower sys = "linux" →
     check_output ["iwgetid"; "-r"] = inl e →
     get_current_ssid sys check_output = inr "Unknown") ∧
  (∀ e, lower sys = "darwin" →
     check_output [airport; "-I"] = inl e →
     get_current_ssid sys check_output = inr "Unknown") ∧
  (∀ out, lower sys = "windows" →
     check_output ["netsh"; "wlan"; "show"; "interfaces"] = inr out →
     search re_multiline windows_ssid_re out = None →
     get_current_ssid sys check_output = inr "Unknown") ∧
  (∀ out, lower sys = "darwin" →
     check_output [airport; "-I"] = inr out →
     search re_noflags airport_ssid_re out = None →
     get_current_ssid sys check_output = inr "Unknown") ∧
  (∀ lib now, ∃ p, api_speedtest sys check_output lib now = inr p ∧
     get_current_ssid sys check_output = inr (ssid p)).
Proof.
  split; [apply get_current_ssid_returns|].
  unfold get_current_ssid, ssid_try.
  split; [|split; [|split; [|split; [|split; [|split]]]]].
  - intros Hw Hl Hd.
    apply String.eqb_neq in Hw, Hl, Hd. now rewrite Hw, Hl, Hd.
  - intros e -> H. cbn [String.eqb Ascii.eqb Bool.eqb]. now rewrite H.
  - intros e -> H. cbn [String.eqb Ascii.eqb Bool.eqb]. now rewrite H.
  - intros e -> H. cbn [String.eqb Ascii.eqb Bool.eqb]. now rewrite H.
  - intros out -> H Hs. cbn [String.eqb Ascii.eqb Bool.eqb]. rewrite H. cbn [bind].
    now rewrite Hs.
  - intros out -> H Hs. cbn [String.eqb Ascii.eqb Bool.eqb]. rewrite H. cbn [bind].
    now rewrite Hs.
  - intros lib now.
    destruct (get_current_ssid_returns sys check_output) as [s Hs].
    destruct (run_speedtest_returns lib) as [[[dl ul] ping] Hr].
    unfold api_speedtest. fold (ssid_try check_output (lower sys)).
    fold (get_current_ssid sys check_output). rewrite Hs, Hr. cbn [bind].
    destruct (compute_health dl) as [h c]. eexists. split; reflexivity.
Qed.

Lemma ssid_lookup_failure_witness :
  get_current_ssid "FreeBSD" (fun _ => inr "home") = inr "Unknown" ∧
  get_current_ssid "Linux" (fun _ => inl FileNotFoundError) = inr "Unknown" ∧
  get_current_ssid "Windows" (fun _ => inl (OtherException "CalledProcessError"))
    = inr "Unknown" ∧
  get_current_ssid "Darwin" (fun _ => inl FileNotFoundError) = inr "Unknown" ∧
  get_current_ssid "Windows" (fun _ => inr "There is no wireless interface on the system.")
    = inr "Unknown" ∧
  get_current_ssid "Darwin" (fun _ => inr "AirPort: Off") = inr "Unknown".
Proof.
  split.
  { apply (proj1 (proj2 (ssid_lookup_failure "FreeBSD" (fun _ => inr "home"))));
      discriminate. }
  split.
  { apply (proj1 (proj2 (proj2 (proj2
      (ssid_lookup_failure "Linux" (fun _ => inl FileNotFoundError)))))
      FileNotFoundError); reflexivity. }
  split.
  { apply (proj1 (proj2 (proj2
      (ssid_lookup_failure "Windows" (fun _ => inl (OtherException "CalledProcessError")))))
      (OtherException "CalledProcessError")); reflexivity. }
  split.
  { apply (proj1 (proj2 (proj2 (proj2 (proj2
      (ssid_lookup_failure "Darwin" (fun _ => inl FileNotFoundError))))))
      FileNotFoundError); reflexivity. }
  split.
  { apply (proj1 (proj2 (proj2 (proj2 (proj2 (proj2
      (ssid_lookup_failure "Windows"
         (fun _ => inr "There is no wireless interface on the system.")))))))
      "There is no wireless interface on the system."); reflexivity. }
  apply (proj1 (proj2 (proj2 (proj2 (proj2 (proj2 (proj2
    (ssid_lookup_failure "Darwin" (fun _ => inr "AirPort: Off"))))))))
    "AirPort: Off"); reflexivity.
Defined.

End GatewayFacts.

(** ** The scheduler *)

Section MonitorFacts.
Import Regex Prober Exn Monitor.

Lemma bind_inr {A B} (a : A) (k : A → result B) : bind (inr a) k = k a.
Proof. reflexivity. Qed.

Lemma bind_ret {A} (c : result A) : bind c (fun a => inr a) = c.
Proof. now destruct c. Qed.

Lemma bind_assoc {A B C} (c : result A) (k : A → result B) (h : B → result C) :
  bind (bind c k) h = bind c (fun a => bind (k a) h).
Proof. now destruct c. Qed.

(** The default timeout is sane: the probe builds its command line. *)
Lemma probe_cmd (w : world) (ip_ : string) :
  ∃ cmd, ping_cmd (platform_system w) ip_ (PyInt 2) = inr cmd.
Proof. apply ping_cmd_sane. vm_compute. reflexivity. Qed.

Lemma probe_returns (w : world) (ip_ : string) : probe w ip_ = inr (probe_result w ip_).
Proof.
  unfold probe_result, probe, ping_latency.
  destruct (probe_cmd w ip_) as [cmd ->].
  destruct (subprocess_run w _ _) as [e|rc out err]; [reflexivity|].
  destruct (rc =? 0)%Z; [|reflexivity]. cbv zeta.
  destruct (search re_ignorecase _ping_time_re _) as [g|];
    [|destruct (search re_ignorecase _windows_avg_re _) as [g|]];
    try destruct (py_float g); first [reflexivity | discriminate].
Qed.

(** A probe that failed has no latency. *)
Lemma probe_result_down (w : world) (ip_ : string) :
  fst (probe_result w ip_) = false → snd (probe_result w ip_) = None.
Proof.
  unfold probe_result, probe, ping_latency.
  destruct (probe_cmd w ip_) as [cmd ->].
  destruct (subprocess_run w _ _) as [e|rc out err]; [reflexivity|].
  destruct (rc =? 0)%Z; [|reflexivity]. cbv zeta.
  destruct (search re_ignorecase _ping_time_re _) as [g|];
    [|destruct (search re_ignorecase _windows_avg_re _) as [g|]];
    try destruct (py_float g); first [reflexivity | discriminate].
Qed.

Lemma targets_nodup : NoDup (WIFI_TARGETS.*1).
Proof. apply (bool_decide_unpack (NoDup (WIFI_TARGETS.*1))). vm_compute. exact I. Qed.

Lemma target_index_inj (i j : nat) (name a b : string) :
  WIFI_TARGETS !! i = Some (name, a) → WIFI_TARGETS !! j = Some (name, b) → i = j.
Proof.
  intros Hi Hj. apply (NoDup_lookup _ i j name targets_nodup);
    rewrite list_lookup_fmap; [rewrite Hi | rewrite Hj]; reflexivity.
Qed.

Lemma target_elem (j : nat) (name ip_ : string) :
  WIFI_TARGETS !! j = Some (name, ip_) → name ∈ targets.
Proof.
  intros H. unfold targets. apply elem_of_list_to_set.
  apply list_elem_of_fmap. exists (name, ip_). split; [reflexivity|].
  eapply list_elem_of_lookup_2. exact H.
Qed.

Lemma target_of_elem (name : string) :
  name ∈ targets → ∃ j ip_, WIFI_TARGETS !! j = Some (name, ip_).
Proof.
  unfold targets. intros H. apply elem_of_list_to_set in H.
  apply list_elem_of_fmap in H as [[n i] [-> H]].
  apply list_elem_of_lookup_1 in H as [j H]. eauto.
Qed.

(** ** The bounded history *)

Lemma seq_snoc (a n : nat) : seq a (S n) = seq a n ++ [a + n].
Proof. rewrite <- Nat.add_1_r. rewrite seq_app. reflexivity. Qed.

Lemma deque_append_items (d : deque) (x : sample) :
  items (deque_append d x)
  = if length (items d) <? maxlen d then items d ++ [x] else tail (items d ++ [x]).
Proof.
  unfold deque_append. cbn [items maxlen]. rewrite length_app. cbn [length].
  destruct (Nat.ltb_spec (maxlen d) (length (items d) + 1)),
           (Nat.ltb_spec (length (items d)) (maxlen d)); try reflexivity; lia.
Qed.

(** Appending to a full deque drops exactly the oldest item. *)
Lemma deque_append_full (d : deque) (x : sample) :
  0 < maxlen d → length (items d) = maxlen d →
  items (deque_append d x) = tail (items d) ++ [x].
Proof.
  intros Hpos Hfull. rewrite deque_append_items.
  destruct (Nat.ltb_spec (length (items d)) (maxlen d)); [lia|].
  destruct (items d); [simpl in Hfull; lia | reflexivity].
Qed.

Lemma deque_append_room (d : deque) (x : sample) :
  length (items d) < maxlen d → items (deque_append d x) = items d ++ [x].
Proof.
  intros H. rewrite deque_append_items.
  now destruct (Nat.ltb_spec (length (items d)) (maxlen d)); [|lia].
Qed.

Lemma window_step {A} (f : nat → A) (M c : nat) :
  let l := map f (seq (c - min c M) (min c M)) ++ [f c] in
  (if M <? length l then tail l else l)
  = map f (seq (S c - min (S c) M) (min (S c) M)).
Proof.
  intros l. subst l. rewrite length_app, length_map, length_seq. cbn [length].
  destruct (Nat.ltb_spec M (min c M + 1)) as [Hfull|Hroom].
  - (* the window is full *)
    assert (HM : M ≤ c) by lia.
    replace (min c M) with M by lia. replace (min (S c) M) with M by lia.
    destruct M as [|M']; [reflexivity|].
    assert (∃ a, c = a + S M') as [a ->] by (exists (c - S M'); lia).
    replace (a + S M' - S M') with a by lia.
    replace (S (a + S M') - S M') with (S a) by lia.
    rewrite (seq_snoc (S a) M'), map_app. cbn [seq map app tail].
    now replace (S a + M') with (a + S M') by lia.
  - assert (Hc : c < M) by lia.
    replace (min c M) with c by lia. replace (min (S c) M) with (S c) by lia.
    replace (c - c) with 0 by lia. replace (S c - S c) with 0 by lia.
    rewrite seq_snoc, map_app. reflexivity.
Qed.

Lemma history_after_step (env : nat → string → world) (name ip_ : string) (c : nat) :
  deque_append (history_after env name ip_ c) (sample_at env name ip_ c)
  = history_after env name ip_ (S c).
Proof.
  unfold deque_append, history_after. cbn [maxlen items]. f_equal.
  apply (window_step (sample_at env name ip_) HISTORY_LENGTH c).
Qed.

(** ** The invariant of the loop *)

Lemma keys_of_init {V} (f : string → V) (l : list (string * string)) :
  (map (fun '(n, i) => (n, f i)) l).*1 = l.*1.
Proof. induction l as [|[n i] l IH]; [reflexivity|]. cbn. now f_equal. Qed.

Lemma init_lookup {V} (f : string → V) (j : nat) (name ip_ : string) :
  WIFI_TARGETS !! j = Some (name, ip_) →
  (list_to_map (map (fun '(n, i) => (n, f i)) WIFI_TARGETS) : gmap string V) !! name
  = Some (f ip_).
Proof.
  intros H. apply elem_of_list_to_map_1.
  - rewrite keys_of_init. exact targets_nodup.
  - apply list_elem_of_In, in_map_iff. exists (name, ip_). split; [reflexivity|].
    apply list_elem_of_In. eapply list_elem_of_lookup_2. exact H.
Qed.

Lemma init_dom {V} (f : string → V) :
  dom (list_to_map (map (fun '(n, i) => (n, f i)) WIFI_TARGETS) : gmap string V) = targets.
Proof.
  rewrite dom_list_to_map_L. unfold targets. now rewrite keys_of_init.
Qed.

Lemma init_state_inv (env : nat → string → world) : state_inv env 0 0 init_state.
Proof.
  unfold state_inv, init_state. cbn [status_store history last_status].
  split; [apply init_dom|]. split; [apply (init_dom (fun _ => _))|].
  split; [apply (init_dom (fun _ => _))|].
  intros j name ip_ H. unfold probes_done. cbn [Nat.ltb Nat.leb].
  split; [|split].
  - exact (init_lookup init_record j name ip_ H).
  - exact (init_lookup (fun _ => {| maxlen := HISTORY_LENGTH; items := [] |}) j name ip_ H).
  - exact (init_lookup (fun _ => "Unknown") j name ip_ H).
Qed.

Lemma record_update_total (ip_ status_ ts : string) (lat : option pynum)
    (r : status_record) :
  record_update ip_ status_ ts lat r
  = {| ip := ip_; status := status_; last := Some ts; latency := lat |}.
Proof. reflexivity. Qed.

Lemma probes_done_here (n idx : nat) : probes_done n idx idx = n.
Proof. unfold probes_done. now rewrite Nat.ltb_irrefl. Qed.

Lemma probes_done_next_here (n idx : nat) : probes_done n (S idx) idx = S n.
Proof. unfold probes_done. destruct (Nat.ltb_spec idx (S idx)); [reflexivity|lia]. Qed.

Lemma probes_done_next_other (n idx j : nat) :
  j ≠ idx → probes_done n (S idx) j = probes_done n idx j.
Proof.
  intros H. unfold probes_done.
  destruct (Nat.ltb_spec j (S idx)), (Nat.ltb_spec j idx); try reflexivity; lia.
Qed.

Lemma union_known (X : gset string) (x : string) : x ∈ X → {[x]} ∪ X = X.
Proof. intros H. apply subseteq_union_1_L. now apply singleton_subseteq_l. Qed.

(** What one pass of the loop body computes. *)
Lemma probe_target_eq (w : world) (name ip_ : string) (st : state)
    (rec : status_record) (d : deque) :
  status_store st !! name = Some rec → history st !! name = Some d →
  probe_target w name ip_ st
  = inr {| status_store :=
             <[name := {| ip := ip_; status := status_of (fst (probe_result w ip_));
                          last := Some (now w); latency := snd (probe_result w ip_) |}]>
               (status_store st);
           history :=
             <[name := deque_append d (sample_of (now w) (fst (probe_result w ip_))
                                         (snd (probe_result w ip_)))]> (history st);
           last_status :=
             <[name := status_of (fst (probe_result w ip_))]> (last_status st) |}.
Proof.
  intros Hrec Hd. unfold probe_target, getitem.
  rewrite probe_returns, bind_inr. destruct (probe_result w ip_) as [ok lat].
  rewrite Hrec, bind_inr, Hd, bind_inr. reflexivity.
Qed.

Lemma probe_target_inv (env : nat → string → world) (n idx : nat) (name ip_ : string)
    (st : state) :
  state_inv env n idx st → WIFI_TARGETS !! idx = Some (name, ip_) →
  ∃ st', probe_target (env n name) name ip_ st = inr st' ∧ state_inv env n (S idx) st'.
Proof.
  intros (Hd1 & Hd2 & Hd3 & Hall) Hidx.
  destruct (Hall idx name ip_ Hidx) as (Hrec & Hhist & Hlast).
  rewrite probes_done_here in Hrec, Hhist, Hlast.
  eexists. split; [exact (probe_target_eq _ _ _ _ _ _ Hrec Hhist)|].
  pose proof (target_elem idx name ip_ Hidx) as Hin.
  unfold state_inv. cbn [status_store history last_status].
  rewrite !dom_insert_L, Hd1, Hd2, Hd3, (union_known targets name Hin).
  split; [reflexivity|]. split; [reflexivity|]. split; [reflexivity|].
  intros j name' ip' Hj.
  destruct (decide (j = idx)) as [->|Hne].
  - rewrite Hidx in Hj. injection Hj as <- <-.
    rewrite !lookup_insert_eq, probes_done_next_here.
    split; [reflexivity|]. split; [|reflexivity].
    f_equal. apply (history_after_step env name ip_ n).
  - assert (name ≠ name').
    { intros <-. apply Hne. exact (target_index_inj j idx name ip' ip_ Hj Hidx). }
    rewrite !lookup_insert_ne by assumption.
    rewrite probes_done_next_other by assumption. exact (Hall j name' ip' Hj).
Qed.

Lemma state_inv_next_tick (env : nat → string → world) (n : nat) (st : state) :
  state_inv env n (length WIFI_TARGETS) st → state_inv env (S n) 0 st.
Proof.
  intros (Hd1 & Hd2 & Hd3 & Hall). repeat split; try assumption;
    pose proof (lookup_lt_Some _ _ _ H) as Hlt;
    destruct (Hall j name ip_ H) as (H1 & H2 & H3);
    unfold probes_done in *; cbn [Nat.ltb Nat.leb];
    destruct (Nat.ltb_spec j (length WIFI_TARGETS)); try lia; assumption.
Qed.

Lemma for_targets_app (w : string → world) (a b : list (string * string)) (st : state) :
  for_targets w (a ++ b) st = (st' <- for_targets w a st ;; for_targets w b st').
Proof.
  revert st. induction a as [|[name ip_] a IH]; intros st; [reflexivity|].
  cbn [app for_targets]. destruct (probe_target (w name) name ip_ st); [reflexivity|].
  cbn [bind]. apply IH.
Qed.

Lemma monitor_upto_0 (env : nat → string → world) (n : nat) :
  monitor_upto env n 0 = monitor_loop env n init_state.
Proof. unfold monitor_upto. cbn [take for_targets]. apply bind_ret. Qed.

Lemma monitor_upto_S (env : nat → string → world) (n idx : nat) (name ip_ : string) :
  WIFI_TARGETS !! idx = Some (name, ip_) →
  monitor_upto env n (S idx)
  = (st <- monitor_upto env n idx ;; probe_target (env n name) name ip_ st).
Proof.
  intros H. unfold monitor_upto. rewrite (take_S_r _ _ _ H).
  destruct (monitor_loop env n init_state) as [e|st]; [reflexivity|]. cbn [bind].
  rewrite for_targets_app.
  destruct (for_targets (env n) (take idx WIFI_TARGETS) st); [reflexivity|].
  cbn [bind for_targets]. apply bind_ret.
Qed.

Lemma monitor_upto_all (env : nat → string → world) (n : nat) :
  monitor_upto env n (length WIFI_TARGETS) = monitor_loop env (S n) init_state.
Proof. unfold monitor_upto. now rewrite firstn_all. Qed.

(** The loop never fails, and its state is the one the invariant describes. *)
Lemma monitor_upto_inv (env : nat → string → world) (n idx : nat) :
  idx ≤ length WIFI_TARGETS →
  ∃ st, monitor_upto env n idx = inr st ∧ state_inv env n idx st.
Proof.
  revert idx. induction n as [|n IHn].
  - induction idx as [|idx IH]; intros Hle.
    + rewrite monitor_upto_0. eexists. split; [reflexivity|]. apply init_state_inv.
    + destruct (IH ltac:(lia)) as (st & Hst & Hinv).
      destruct (lookup_lt_is_Some_2 WIFI_TARGETS idx ltac:(lia)) as [[name ip_] Hidx].
      destruct (probe_target_inv env 0 idx name ip_ st Hinv Hidx) as (st' & Hst' & Hinv').
      exists st'. split; [|exact Hinv'].
      now rewrite (monitor_upto_S env 0 idx name ip_ Hidx), Hst.
  - induction idx as [|idx IH]; intros Hle.
    + destruct (IHn (length WIFI_TARGETS) ltac:(lia)) as (st & Hst & Hinv).
      exists st. rewrite monitor_upto_0, <- monitor_upto_all.
      split; [exact Hst|]. now apply state_inv_next_tick.
    + destruct (IH ltac:(lia)) as (st & Hst & Hinv).
      destruct (lookup_lt_is_Some_2 WIFI_TARGETS idx ltac:(lia)) as [[name ip_] Hidx].
      destruct (probe_target_inv env (S n) idx name ip_ st Hinv Hidx)
        as (st' & Hst' & Hinv').
      exists st'. split; [|exact Hinv'].
      now rewrite (monitor_upto_S env (S n) idx name ip_ Hidx), Hst.
Qed.

Lemma target_lookup (name ip_ : string) :
  (name, ip_) ∈ WIFI_TARGETS → ∃ j, WIFI_TARGETS !! j = Some (name, ip_).
Proof. apply list_elem_of_lookup_1. Qed.

Lemma record_after_ip (env : nat → string → world) (name ip_ : string) (c : nat) :
  ip (record_after env name ip_ c) = ip_.
Proof. now destruct c. Qed.

Lemma record_after_latency (env : nat → string → world) (name ip_ : string) (c : nat) :
  let r := record_after env name ip_ c in
  (status r = "UP" ∨ status r = "DOWN" ∨ status r = "Unknown") ∧
  (status r ≠ "UP" → latency r = None).
Proof.
  destruct c as [|k]; cbn [record_after].
  - split; [now right; right | reflexivity].
  - unfold record_at. cbn [status latency].
    pose proof (probe_result_down (env k name) ip_) as Hdown.
    destruct (fst (probe_result (env k name) ip_)); cbn [status_of].
    + split; [now left | congruence].
    + split; [now right; left | auto].
Qed.

(** C1: after [N] iterations of the loop the history of a target holds
    [min N 300] samples, never more than 300: they are the samples of the
    last [min N 300] iterations, in the order of the iterations and without
    a gap.  Appending to a full history drops exactly its oldest sample. *)
Theorem history_bounded_fifo (env : nat → string → world) (N : nat) (name ip_ : string) :
  (name, ip_) ∈ WIFI_TARGETS →
  ∃ st d, monitor_loop env N init_state = inr st ∧ history st !! name = Some d ∧
    maxlen d = 300 ∧
    length (items d) = min N 300 ∧
    length (items d) ≤ 300 ∧
    items d = map (sample_at env name ip_) (seq (N - min N 300) (min N 300)) ∧
    (∀ x, length (items d) = 300 → items (deque_append d x) = tail (items d) ++ [x]).
Proof.
  intros Hin. destruct (target_lookup name ip_ Hin) as [j Hj].
  destruct (monitor_upto_inv env N 0 ltac:(lia)) as (st & Hst & Hinv).
  rewrite monitor_upto_0 in Hst.
  destruct Hinv as (_ & _ & _ & Hall). destruct (Hall j name ip_ Hj) as (_ & Hh & _).
  unfold probes_done in Hh. cbn [Nat.ltb Nat.leb] in Hh.
  exists st, (history_after env name ip_ N).
  change 300 with HISTORY_LENGTH.
  split; [exact Hst|]. split; [exact Hh|]. split; [reflexivity|].
  cbn [history_after items maxlen]. rewrite length_map, length_seq.
  split; [reflexivity|]. split; [lia|]. split; [reflexivity|].
  intros x Hfull.
  apply (deque_append_full
           {| maxlen := HISTORY_LENGTH;
              items := map (sample_at env name ip_)
                         (seq (N - min N HISTORY_LENGTH) (min N HISTORY_LENGTH)) |}).
  - cbn [maxlen]. unfold HISTORY_LENGTH. lia.
  - cbn [maxlen items]. rewrite length_map, length_seq. exact Hfull.
Qed.

Lemma history_bounded_fifo_witness :
  let env := fun (_ : nat) (_ : string) => lively_world in
  let x := ("2025-01-01 00:40:16", 0%Z, None) in
  ∃ st d, monitor_loop env 301 init_state = inr st ∧
    history st !! "Airtel_Zerotouch" = Some d ∧
    length (items d) = 300 ∧
    items d = map (sample_at env "Airtel_Zerotouch" "192.168.1.9") (seq 1 300) ∧
    items (deque_append d x) = tail (items d) ++ [x].
Proof.
  intros env x.
  destruct (history_bounded_fifo env 301 "Airtel_Zerotouch" "192.168.1.9")
    as (st & d & Hst & Hd & _ & Hlen & _ & Hitems & Hfull).
  { apply list_elem_of_In. vm_compute. tauto. }
  exists st, d. split; [exact Hst|]. split; [exact Hd|].
  split; [exact Hlen|]. split; [exact Hitems|]. apply Hfull. exact Hlen.
Defined.

(** C7: in every state of the loop, a record whose status is not "UP"
    ("DOWN" or "Unknown") has no latency; so a record with a latency has
    status "UP". *)
Theorem latency_only_when_up (env : nat → string → world) (n idx : nat) (st : state)
    (name : string) (r : status_record) :
  idx ≤ length WIFI_TARGETS →
  monitor_upto env n idx = inr st →
  status_store st !! name = Some r →
  (status r = "UP" ∨ status r = "DOWN" ∨ status r = "Unknown") ∧
  (status r ≠ "UP" → latency r = None) ∧
  (latency r ≠ None → status r = "UP").
Proof.
  intros Hle Hst Hr.
  destruct (monitor_upto_inv env n idx Hle) as (st' & Hst' & Hinv).
  rewrite Hst in Hst'. injection Hst' as <-.
  destruct Hinv as (Hdom & _ & _ & Hall).
  assert (Hname : name ∈ targets).
  { rewrite <- Hdom. apply elem_of_dom. eauto. }
  destruct (target_of_elem name Hname) as (j & ip_ & Hj).
  destruct (Hall j name ip_ Hj) as (Hrec & _ & _).
  rewrite Hr in Hrec. injection Hrec as ->.
  destruct (record_after_latency env name ip_ (probes_done n idx j)) as [H1 H2].
  split; [exact H1|]. split; [exact H2|].
  intros Hlat.
  destruct (String.eqb_spec (status (record_after env name ip_ (probes_done n idx j))) "UP")
    as [Hup|Hup]; [exact Hup|].
  now apply H2 in Hup.
Qed.

Lemma result_inr {A} (x : result A) (a : A) :
  match x with inr s => Some s | inl _ => None end = Some a → x = inr a.
Proof. destruct x; [discriminate | now intros [= ->]]. Qed.

Lemma latency_only_when_up_witness :
  let env := fun (k : nat) (_ : string) => if k =? 0 then lively_world else silent_world in
  let down := {| ip := "192.168.1.2"; status := "DOWN";
                 last := Some "2025-01-01 00:00:00"; latency := None |} in
  let up := {| ip := "192.168.1.9"; status := "UP";
               last := Some "2025-01-01 00:00:08"; latency := Some (round_double 23.4) |} in
  ∃ st, monitor_upto env 1 4 = inr st ∧
    status_store st !! "SHAKTI_5GHz" = Some down ∧
    status_store st !! "Airtel_Zerotouch" = Some up ∧
    (status down ≠ "UP" → latency down = None) ∧
    (latency up ≠ None → status up = "UP").
Proof.
  intros env down up.
  assert (Hle : 4 ≤ length WIFI_TARGETS) by (vm_compute; lia).
  assert (H1 : match monitor_upto env 1 4 with inr s => Some s | inl _ => None end
               ≫= (fun s => status_store s !! "SHAKTI_5GHz") = Some down)
    by (vm_compute; reflexivity).
  assert (H2 : match monitor_upto env 1 4 with inr s => Some s | inl _ => None end
               ≫= (fun s => status_store s !! "Airtel_Zerotouch") = Some up)
    by (vm_compute; reflexivity).
  apply bind_Some in H1 as (st & Hst & Hdown).
  apply bind_Some in H2 as (st' & Hst' & Hup).
  rewrite Hst in Hst'. injection Hst' as <-.
  apply result_inr in Hst.
  exists st. split; [exact Hst|]. split; [exact Hdown|]. split; [exact Hup|]. split.
  - exact (proj1 (proj2
      (latency_only_when_up env 1 4 st "SHAKTI_5GHz" down Hle Hst Hdown))).
  - exact (proj2 (proj2
      (latency_only_when_up env 1 4 st "Airtel_Zerotouch" up Hle Hst Hup))).
Defined.

(** C10: in every state of the loop the status map that [api_status]
    returns has exactly the configured targets as keys, and every record
    carries the configured address of its name.  Probing a target leaves the
    key set, the [ip] of its record and the record of every other target as
    they were. *)
Theorem status_frame (env : nat → string → world) (n idx : nat) :
  idx ≤ length WIFI_TARGETS →
  ∃ st, monitor_upto env n idx = inr st ∧
    dom (api_status st) = list_to_set (WIFI_TARGETS.*1) ∧
    (∀ name r, api_status st !! name = Some r → (name, ip r) ∈ WIFI_TARGETS) ∧
    (∀ name ip_, (name, ip_) ∈ WIFI_TARGETS →
       ∃ r, api_status st !! name = Some r ∧ ip r = ip_) ∧
    (∀ name ip_, WIFI_TARGETS !! idx = Some (name, ip_) →
       ∃ st' r r',
         probe_target (env n name) name ip_ st = inr st' ∧
         monitor_upto env n (S idx) = inr st' ∧
         status_store st !! name = Some r ∧ status_store st' !! name = Some r' ∧
         ip r' = ip r ∧
         dom (status_store st') = dom (status_store st) ∧
         (∀ other, other ≠ name →
            status_store st' !! other = status_store st !! other)).
Proof.
  intros Hle. destruct (monitor_upto_inv env n idx Hle) as (st & Hst & Hinv).
  exists st. split; [exact Hst|].
  pose proof Hinv as (Hdom & Hdh & Hdl & Hall). unfold api_status.
  split; [exact Hdom|]. split; [|split].
  - intros name r Hr.
    assert (Hname : name ∈ targets) by (rewrite <- Hdom; apply elem_of_dom; eauto).
    destruct (target_of_elem name Hname) as (j & ip_ & Hj).
    destruct (Hall j name ip_ Hj) as (Hrec & _ & _).
    rewrite Hr in Hrec. injection Hrec as ->. rewrite record_after_ip.
    eapply list_elem_of_lookup_2. exact Hj.
  - intros name ip_ Hin. destruct (target_lookup name ip_ Hin) as [j Hj].
    destruct (Hall j name ip_ Hj) as (Hrec & _ & _).
    eexists. split; [exact Hrec|]. apply record_after_ip.
  - intros name ip_ Hidx.
    destruct (Hall idx name ip_ Hidx) as (Hrec & Hhist & _).
    pose proof (probe_target_eq (env n name) name ip_ st _ _ Hrec Hhist) as Hstep.
    eexists. exists (record_after env name ip_ (probes_done n idx idx)). eexists.
    split; [exact Hstep|]. split.
    { now rewrite (monitor_upto_S env n idx name ip_ Hidx), Hst. }
    split; [exact Hrec|]. cbn [status_store].
    split; [apply lookup_insert_eq|]. split; [now rewrite record_after_ip|].
    split.
    + rewrite dom_insert_L, Hdom. apply union_known. exact (target_elem idx name ip_ Hidx).
    + intros other Hne. now apply lookup_insert_ne.
Qed.

Lemma status_frame_witness :
  ∃ st, monitor_upto (fun _ _ => lively_world) 2 3 = inr st ∧
    (∃ r, api_status st !! "Lawfull_Conect_5GHz" = Some r ∧ ip r = "192.168.1.8") ∧
    ∃ st' r r',
      probe_target lively_world "Air_Shakti_564_2.4GHz" "192.168.1.4" st = inr st' ∧
      status_store st !! "Air_Shakti_564_2.4GHz" = Some r ∧
      status_store st' !! "Air_Shakti_564_2.4GHz" = Some r' ∧
      ip r' = ip r.
Proof.
  destruct (status_frame (fun _ _ => lively_world) 2 3) as (st & Hst & _ & _ & Hip & Hstep).
  { vm_compute. lia. }
  exists st. split; [exact Hst|]. split.
  - apply Hip. apply list_elem_of_In. vm_compute. tauto.
  - destruct (Hstep "Air_Shakti_564_2.4GHz" "192.168.1.4" eq_refl)
      as (st' & r & r' & H1 & _ & H3 & H4 & H5 & _).
    exists st', r, r'. auto.
Defined.

End MonitorFacts.

(** ** The lock *)

Section ConcFacts.
Import Prober Exn Monitor Conc.

Variable env : nat → string → world.

Lemma state_inv_whole (n idx : nat) (base : state) (name : string) (r : status_record) :
  state_inv env n idx base → status_store base !! name = Some r → whole env name r.
Proof.
  intros (Hdom & _ & _ & Hall) Hr.
  assert (Hname : name ∈ targets) by (rewrite <- Hdom; apply elem_of_dom; eauto).
  destruct (target_of_elem name Hname) as (j & ip_ & Hj).
  destruct (Hall j name ip_ Hj) as (Hrec & _ & _).
  rewrite Hr in Hrec. injection Hrec as ->.
  exists ip_. split; [eapply list_elem_of_lookup_2; exact Hj|].
  destruct (probes_done n idx j) as [|k]; [now left | right; now exists k].
Qed.

(** The sequential state is determined by the invariant. *)
Lemma state_inv_unique (n idx : nat) (st1 st2 : state) :
  state_inv env n idx st1 → state_inv env n idx st2 → st1 = st2.
Proof.
  intros (Ha1 & Ha2 & Ha3 & Ha) (Hb1 & Hb2 & Hb3 & Hb).
  assert (Hpt : ∀ name,
    status_store st1 !! name = status_store st2 !! name ∧
    history st1 !! name = history st2 !! name ∧
    last_status st1 !! name = last_status st2 !! name).
  { intros name. destruct (decide (name ∈ targets)) as [Hin|Hout].
    - destruct (target_of_elem name Hin) as (j & ip_ & Hj).
      destruct (Ha j name ip_ Hj) as (-> & -> & ->).
      destruct (Hb j name ip_ Hj) as (-> & -> & ->). auto.
    - pose proof Hout as H1. pose proof Hout as H2. pose proof Hout as H3.
      pose proof Hout as H4. pose proof Hout as H5. pose proof Hout as H6.
      rewrite <- Ha1 in H1. rewrite <- Ha2 in H2. rewrite <- Ha3 in H3.
      rewrite <- Hb1 in H4. rewrite <- Hb2 in H5. rewrite <- Hb3 in H6.
      apply not_elem_of_dom in H1, H2, H3, H4, H5, H6.
      now rewrite H1, H2, H3, H4, H5, H6. }
  destruct st1 as [s1 h1 l1], st2 as [s2 h2 l2]. cbn [status_store history last_status] in *.
  f_equal; apply map_eq; intros name; apply (Hpt name).
Qed.

Lemma conc_inv_init : conc_inv env init_cstate.
Proof.
  unfold conc_inv, init_cstate. cbn [mon shared].
  split; [cbn; lia|]. split; [|split].
  - exists init_state. split; [apply init_state_inv | reflexivity].
  - split; cbn.
    + split; discriminate.
    + intros i. rewrite lookup_empty. split; [discriminate|].
      intros [H|[s H]]; discriminate.
  - intros i snap. unfold response. cbn. rewrite lookup_empty. discriminate.
Qed.

(** Outside the critical section every record of the store is whole. *)
Lemma store_whole_outside (m : mon_state) (sh : state) :
  locals_ok env m → shared_ok env m sh → in_critical (m_pc m) = false →
  dom (status_store sh) = targets ∧
  ∀ name r, status_store sh !! name = Some r → whole env name r.
Proof.
  intros Hloc (base & Hinv & Hsh) Hout.
  destruct m as [n idx pc name ip_ ok lat st ts]. cbn [m_pc m_tick m_idx m_name] in *.
  destruct pc; try discriminate; cbn [m_pc] in Hsh, Hloc.
  - subst sh. split; [apply Hinv|]. intros nm r Hr. eapply state_inv_whole; eauto.
  - subst sh. split; [apply Hinv|]. intros nm r Hr. eapply state_inv_whole; eauto.
  - destruct Hsh as (r0 & d & Hr0 & Hd & ->). cbn [status_store].
    destruct Hloc as (Hidx & Hok & Hlat & Hst & Hts).
    cbn [m_idx m_name m_ip m_ok m_lat m_status m_ts m_tick] in *.
    split.
    { rewrite dom_insert_L. destruct Hinv as (-> & _).
      apply union_known. exact (target_elem idx name ip_ Hidx). }
    intros nm r Hr. destruct (decide (name = nm)) as [<-|Hne].
    + rewrite lookup_insert_eq in Hr. injection Hr as <-.
      exists ip_. split; [eapply list_elem_of_lookup_2; exact Hidx|].
      right. exists n. unfold pending_record. cbn [m_pc].
      rewrite record_update_total. unfold record_at.
      cbn [m_ip m_status m_ts m_lat]. now rewrite Hst, Hok, Hlat, Hts.
    + rewrite lookup_insert_ne in Hr by assumption.
      now apply (state_inv_whole n idx base).
  - contradiction.
Qed.

Lemma not_critical_unlocked (c : cstate) :
  lock_ok c → lock c ≠ Some Mon → in_critical (m_pc (mon c)) = false.
Proof.
  intros [Hm _] Hne. destruct (in_critical (m_pc (mon c))) eqn:E; [|reflexivity].
  exfalso. apply Hne. now apply Hm.
Qed.

Lemma response_insert (c : cstate) (sh : state) (lk : option tid) (i j : nat)
    (q : req_state) :
  response {| shared := sh; lock := lk; mon := mon c; reqs := <[i := q]> (reqs c) |} j
  = if decide (i = j)
    then match q with RCopied s | RDone s => Some s | _ => None end
    else response c j.
Proof.
  unfold response. cbn [reqs]. destruct (decide (i = j)) as [->|Hne].
  - rewrite lookup_insert_eq. now destruct q.
  - now rewrite lookup_insert_ne.
Qed.

(** A step of a request thread keeps the invariant, and it reads the store
    only while it holds the lock. *)
Lemma step_req_inv (i : nat) (c : cstate) :
  conc_inv env c →
  conc_inv env (fst (step_req i c)) ∧ event_ok (snd (step_req i c)).
Proof.
  intros (Hloc & Hsh & Hlock & Hsnap). pose proof Hlock as [Hmon Hreq].
  unfold step_req.
  destruct (default RStart (reqs c !! i)) as [| |snap|snap] eqn:Hq.
  - (* RStart: taking the lock *)
    destruct (lock c) as [t|] eqn:Hlk; cbn [fst snd].
    { split; [|exact I]. split; [exact Hloc|]. split; [exact Hsh|].
      split; [exact Hlock | exact Hsnap]. }
    split; [|exact I].
    split; [exact Hloc|]. split; [exact Hsh|]. split.
    + split; cbn [lock mon reqs].
      * split; [discriminate|]. intros Hc.
        rewrite (not_critical_unlocked c Hlock) in Hc; [discriminate|].
        rewrite Hlk. discriminate.
      * intros j. destruct (decide (i = j)) as [<-|Hne].
        { rewrite lookup_insert_eq. split; [now left | reflexivity]. }
        rewrite lookup_insert_ne by assumption.
        split; [intros [= ->]; contradiction|].
        intros H. apply Hreq in H. discriminate.
    + intros j snap. rewrite response_insert.
      destruct (decide (i = j)); [discriminate | apply Hsnap].
  - (* RLocked: the copy *)
    assert (Hq' : reqs c !! i = Some RLocked)
      by (destruct (reqs c !! i) as [[]|]; cbn in Hq; congruence).
    assert (Hlk : lock c = Some (Req i)) by (apply Hreq; now left).
    cbn [fst snd]. split; [|exact Hlk].
    split; [exact Hloc|]. split; [exact Hsh|]. split.
    + split; cbn [lock mon reqs]; [exact Hmon|].
      intros j. destruct (decide (i = j)) as [<-|Hne].
      * rewrite lookup_insert_eq. split; [right; eauto | intros _; exact Hlk].
      * rewrite lookup_insert_ne by assumption. apply Hreq.
    + intros j snap. rewrite response_insert.
      destruct (decide (i = j)); [|apply Hsnap].
      intros [= <-]. unfold api_status.
      apply (store_whole_outside (mon c) (shared c) Hloc Hsh).
      apply (not_critical_unlocked c Hlock). rewrite Hlk. discriminate.
  - (* RCopied: the release *)
    assert (Hq' : reqs c !! i = Some (RCopied snap))
      by (destruct (reqs c !! i) as [[]|]; cbn in Hq; congruence).
    assert (Hlk : lock c = Some (Req i)) by (apply Hreq; right; eauto).
    cbn [fst snd]. split; [|exact I].
    split; [exact Hloc|]. split; [exact Hsh|]. split.
    + split; cbn [lock mon reqs].
      * split; [discriminate|]. intros Hc.
        rewrite (not_critical_unlocked c Hlock) in Hc; [discriminate|].
        rewrite Hlk. discriminate.
      * intros j. split; [discriminate|].
        destruct (decide (i = j)) as [<-|Hne].
        { rewrite lookup_insert_eq. intros [H|[s H]]; discriminate. }
        rewrite lookup_insert_ne by assumption. intros H. apply Hreq in H.
        rewrite Hlk in H. injection H as ->. contradiction.
    + intros j snap'. rewrite response_insert.
      destruct (decide (i = j)) as [<-|]; [|apply Hsnap].
      intros [= <-]. apply (Hsnap i snap). unfold response. now rewrite Hq'.
  - (* RDone *)
    cbn [fst snd]. split; [|exact I]. split; [exact Hloc|]. split; [exact Hsh|].
    split; [exact Hlock | exact Hsnap].
Qed.

Lemma alter_at {V} (f : V → V) (m : gmap string V) (k : string) (x : V) :
  m !! k = Some x → alter f k m = <[k := f x]> m.
Proof.
  intros H. rewrite <- (insert_id m k x H) at 1. apply alter_insert_eq.
Qed.

Lemma lock_ok_same (c c' : cstate) :
  lock c' = lock c → reqs c' = reqs c →
  in_critical (m_pc (mon c')) = in_critical (m_pc (mon c)) →
  lock_ok c → lock_ok c'.
Proof. unfold lock_ok. now intros -> -> ->. Qed.

Lemma lock_ok_acquire (c c' : cstate) :
  lock c = None → lock c' = Some Mon → reqs c' = reqs c →
  in_critical (m_pc (mon c')) = true →
  lock_ok c → lock_ok c'.
Proof.
  unfold lock_ok. intros Hn -> -> -> [_ Hreq]. split; [tauto|].
  intros i. split; [discriminate|]. intros H. apply Hreq in H. congruence.
Qed.

Lemma lock_ok_release (c c' : cstate) :
  lock c = Some Mon → lock c' = None → reqs c' = reqs c →
  in_critical (m_pc (mon c')) = false →
  lock_ok c → lock_ok c'.
Proof.
  unfold lock_ok. intros Hn -> -> -> [_ Hreq]. split; [split; discriminate|].
  intros i. split; [discriminate|]. intros H. apply Hreq in H. congruence.
Qed.

Lemma snaps_ok_same (c c' : cstate) :
  reqs c' = reqs c → snaps_ok env c → snaps_ok env c'.
Proof. unfold snaps_ok, response. now intros ->. Qed.

Lemma set_key_eq (f : status_record → status_record) (next : mon_pc) (c : cstate)
    (r : status_record) :
  status_store (shared c) !! m_name (mon c) = Some r →
  set_key f next c
  = ({| shared := with_store (alter f (m_name (mon c))) (shared c); lock := lock c;
        mon := at_pc next (mon c); reqs := reqs c |},
     Some {| ev_tid := Mon; ev_lock := lock c;
             ev_access := Write StatusStore (m_name (mon c)) |}).
Proof. intros H. unfold set_key. now rewrite H. Qed.

(** Inside the critical section: the store and the histories are those of
    [base] but for the current target. *)
Lemma shared_ok_pending (m : mon_state) (sh base : state) (r0 : status_record) (d : deque) :
  state_inv env (m_tick m) (m_idx m) base →
  status_store base !! m_name m = Some r0 →
  history base !! m_name m = Some d →
  sh = {| status_store := <[m_name m := pending_record m r0]> (status_store base);
          history := <[m_name m := pending_deque m d]> (history base);
          last_status := last_status base |} →
  m_pc m ≠ MDead → m_pc m ≠ MProbe →
  shared_ok env m sh.
Proof.
  intros Hinv Hr0 Hd -> Hdead Hprobe. exists base. split; [exact Hinv|].
  destruct m as [n idx pc name ip_ ok lat st ts].
  cbn [m_pc m_name] in *.
  destruct pc; try congruence; try (exists r0, d; now repeat split);
    unfold pending_record, pending_deque; cbn [m_pc];
    rewrite (insert_id _ _ _ Hr0), (insert_id _ _ _ Hd); now destruct base.
Qed.

Lemma shared_ok_base (m : mon_state) (sh : state) :
  shared_ok env m sh → m_pc m ≠ MDead → m_pc m ≠ MProbe →
  WIFI_TARGETS !! m_idx m = Some (m_name m, m_ip m) →
  ∃ base r0 d,
    state_inv env (m_tick m) (m_idx m) base ∧
    status_store base !! m_name m = Some r0 ∧
    history base !! m_name m = Some d ∧
    sh = {| status_store := <[m_name m := pending_record m r0]> (status_store base);
            history := <[m_name m := pending_deque m d]> (history base);
            last_status := last_status base |}.
Proof.
  intros (base & Hinv & Hsh) Hdead Hprobe Hidx. exists base.
  pose proof Hinv as (_ & _ & _ & Hall).
  destruct (Hall _ _ _ Hidx) as (Hr0 & Hd & _).
  destruct m as [n idx pc name ip_ ok lat st ts]. cbn [m_pc m_name m_idx m_tick] in *.
  destruct pc; try congruence.
  1, 2: subst sh; do 2 eexists; split; [exact Hinv|]; split; [exact Hr0|];
        split; [exact Hd|]; unfold pending_record, pending_deque; cbn [m_pc];
        rewrite (insert_id _ _ _ Hr0), (insert_id _ _ _ Hd); now destruct base.
  all: destruct Hsh as (r0 & d & Hr0' & Hd' & ->); exists r0, d;
       split; [exact Hinv|]; split; [exact Hr0'|]; split; [exact Hd'|]; reflexivity.
Qed.

Lemma locals_ok_at (m : mon_state) (pc : mon_pc) :
  locals_ok env m → m_pc m ≠ MProbe → pc ≠ MProbe → pc ≠ MDead →
  locals_ok env (at_pc pc m).
Proof.
  destruct m as [n idx pc0 name ip_ ok lat st ts]. unfold locals_ok, at_pc.
  cbn [m_pc m_tick m_idx m_name m_ip m_ok m_lat m_status m_ts].
  intros H H0 H1 H2. destruct pc0; try congruence; try contradiction;
    destruct pc; try congruence; exact H.
Qed.

Lemma locals_ok_target (m : mon_state) :
  locals_ok env m → m_pc m ≠ MProbe →
  WIFI_TARGETS !! m_idx m = Some (m_name m, m_ip m) ∧
  m_ok m = fst (probe_result (env (m_tick m) (m_name m)) (m_ip m)) ∧
  m_lat m = snd (probe_result (env (m_tick m) (m_name m)) (m_ip m)) ∧
  m_status m = status_of (m_ok m) ∧
  m_ts m = now (env (m_tick m) (m_name m)).
Proof.
  unfold locals_ok. destruct (m_pc m); try congruence; try contradiction; auto.
Qed.

(** One of the four key updates of line 107. *)
Lemma set_key_inv (f : status_record → status_record) (next : mon_pc) (c : cstate) :
  conc_inv env c →
  in_critical (m_pc (mon c)) = true → in_critical next = true →
  (∀ r0, pending_record (at_pc next (mon c)) r0 = f (pending_record (mon c) r0)) →
  (∀ d, pending_deque (at_pc next (mon c)) d = pending_deque (mon c) d) →
  conc_inv env (fst (set_key f next c)) ∧ event_ok (snd (set_key f next c)).
Proof.
  intros (Hloc & Hsh & Hlock & Hsnap) Hcrit Hnext Hrec Hdeq.
  assert (Hpc : m_pc (mon c) ≠ MProbe ∧ m_pc (mon c) ≠ MDead)
    by (split; intros E; rewrite E in Hcrit; discriminate).
  assert (Hnx : next ≠ MProbe ∧ next ≠ MDead)
    by (split; intros E; rewrite E in Hnext; discriminate).
  destruct (locals_ok_target _ Hloc (proj1 Hpc)) as (Hidx & _).
  destruct (shared_ok_base _ _ Hsh (proj2 Hpc) (proj1 Hpc) Hidx)
    as (base & r0 & d & Hinv & Hr0 & Hd & Heq).
  assert (Hlook : status_store (shared c) !! m_name (mon c)
                  = Some (pending_record (mon c) r0)).
  { rewrite Heq. cbn [status_store]. apply lookup_insert_eq. }
  rewrite (set_key_eq f next c _ Hlook). cbn [fst snd].
  split; [|cbn; split; [reflexivity | apply Hlock; exact Hcrit]].
  split; [|split; [|split]]; cbn [mon shared].
  - apply locals_ok_at; tauto.
  - apply (shared_ok_pending (at_pc next (mon c)) _ base r0 d).
    + destruct (mon c); exact Hinv.
    + destruct (mon c); exact Hr0.
    + destruct (mon c); exact Hd.
    + rewrite Hrec, Hdeq, Heq. unfold with_store. cbn [status_store history last_status].
      rewrite alter_insert_eq. now destruct (mon c).
    + destruct (mon c); cbn; tauto.
    + destruct (mon c); cbn; tauto.
  - eapply (lock_ok_same c); [reflexivity | reflexivity | | exact Hlock].
    cbn [mon]. destruct (mon c); cbn [at_pc m_pc] in *. now rewrite Hcrit, Hnext.
  - eapply (snaps_ok_same c); [reflexivity | exact Hsnap].
Qed.

Ltac set_key_case Hinv Hpc :=
  apply (set_key_inv _ _ _ Hinv);
  [ rewrite Hpc; reflexivity
  | reflexivity
  | intros r0; unfold pending_record; cbn [at_pc m_pc m_ip m_status m_ts m_lat];
    rewrite Hpc; reflexivity
  | intros d; unfold pending_deque; cbn [at_pc m_pc]; rewrite Hpc; reflexivity ].

(** A step of the scheduler keeps the invariant, and it writes the store
    and the histories only while it holds the lock. *)
Lemma step_mon_inv (c : cstate) :
  conc_inv env c →
  conc_inv env (fst (step_mon env c)) ∧ event_ok (snd (step_mon env c)).
Proof.
  intros Hinv. pose proof Hinv as (Hloc & Hsh & Hlock & Hsnap).
  unfold step_mon. destruct (m_pc (mon c)) eqn:Hpc.
  - (* MProbe *)
    unfold locals_ok in Hloc. rewrite Hpc in Hloc.
    destruct Hsh as (base & Hbase & Hsh). rewrite Hpc in Hsh.
    destruct (WIFI_TARGETS !! m_idx (mon c)) as [[name ip_]|] eqn:Hidx.
    + rewrite probe_returns.
      destruct (probe_result (env (m_tick (mon c)) name) ip_) as [ok lat] eqn:Hpr.
      cbn [fst snd]. split; [|exact I].
      split; [|split; [|split]]; cbn [mon shared].
      * unfold locals_ok. cbn [m_pc m_idx m_name m_ip m_ok m_lat m_status m_ts m_tick].
        rewrite Hpr. now repeat split.
      * exists base. split; [exact Hbase | exact Hsh].
      * eapply (lock_ok_same c); [reflexivity | reflexivity | | exact Hlock].
        cbn [mon m_pc]. now rewrite Hpc.
      * eapply (snaps_ok_same c); [reflexivity | exact Hsnap].
    + cbn [fst snd]. split; [|exact I].
      apply lookup_ge_None_1 in Hidx.
      assert (Hfull : m_idx (mon c) = length WIFI_TARGETS) by lia.
      split; [|split; [|split]]; cbn [mon shared].
      * unfold locals_ok. cbn [m_pc m_idx]. lia.
      * exists base. cbn [m_pc m_tick m_idx]. split; [|exact Hsh].
        apply state_inv_next_tick. now rewrite <- Hfull.
      * eapply (lock_ok_same c); [reflexivity | reflexivity | | exact Hlock].
        cbn [mon m_pc]. now rewrite Hpc.
      * eapply (snaps_ok_same c); [reflexivity | exact Hsnap].
  - (* MAcquire *)
    destruct (lock c) as [t|] eqn:Hlk; cbn [fst snd]; [split; [exact Hinv | exact I]|].
    split; [|exact I].
    split; [|split; [|split]]; cbn [mon shared].
    + apply locals_ok_at; [exact Hloc | rewrite Hpc | |]; discriminate.
    + destruct Hsh as (base & Hbase & Hsh). rewrite Hpc in Hsh.
      exists base. destruct (mon c); split; [exact Hbase | exact Hsh].
    + eapply (lock_ok_acquire c); [exact Hlk | reflexivity | reflexivity | | exact Hlock].
      cbn [mon]. now destruct (mon c).
    + eapply (snaps_ok_same c); [reflexivity | exact Hsnap].
  - set_key_case Hinv Hpc.
  - set_key_case Hinv Hpc.
  - set_key_case Hinv Hpc.
  - set_key_case Hinv Hpc.
  - (* MAppend *)
    assert (Hp : m_pc (mon c) ≠ MProbe ∧ m_pc (mon c) ≠ MDead)
      by (rewrite Hpc; split; discriminate).
    destruct (locals_ok_target _ Hloc (proj1 Hp)) as (Hidx & _).
    destruct (shared_ok_base _ _ Hsh (proj2 Hp) (proj1 Hp) Hidx)
      as (base & r0 & d & Hbase & Hr0 & Hd & Heq).
    assert (Hlk : lock c = Some Mon) by (apply Hlock; now rewrite Hpc).
    assert (Hlook : history (shared c) !! m_name (mon c) = Some d).
    { rewrite Heq. cbn [history]. rewrite lookup_insert_eq.
      unfold pending_deque. now rewrite Hpc. }
    rewrite Hlook. cbn [fst snd]. split; [|cbn; split; [reflexivity | exact Hlk]].
    split; [|split; [|split]]; cbn [mon shared].
    + apply locals_ok_at; [exact Hloc | rewrite Hpc | |]; discriminate.
    + apply (shared_ok_pending (at_pc MRelease (mon c)) _ base r0 d).
      * destruct (mon c); exact Hbase.
      * destruct (mon c); exact Hr0.
      * destruct (mon c); exact Hd.
      * rewrite Heq. cbn [status_store history last_status].
        rewrite insert_insert_eq. unfold pending_record, pending_deque.
        rewrite Hpc. now destruct (mon c).
      * destruct (mon c); discriminate.
      * destruct (mon c); discriminate.
    + eapply (lock_ok_same c); [reflexivity | reflexivity | | exact Hlock].
      cbn [mon]. rewrite Hpc. now destruct (mon c).
    + eapply (snaps_ok_same c); [reflexivity | exact Hsnap].
  - (* MRelease *)
    assert (Hp : m_pc (mon c) ≠ MProbe ∧ m_pc (mon c) ≠ MDead)
      by (rewrite Hpc; split; discriminate).
    destruct (locals_ok_target _ Hloc (proj1 Hp)) as (Hidx & _).
    destruct (shared_ok_base _ _ Hsh (proj2 Hp) (proj1 Hp) Hidx)
      as (base & r0 & d & Hbase & Hr0 & Hd & Heq).
    assert (Hlk : lock c = Some Mon) by (apply Hlock; now rewrite Hpc).
    cbn [fst snd]. split; [|exact I].
    split; [|split; [|split]]; cbn [mon shared].
    + apply locals_ok_at; [exact Hloc | rewrite Hpc | |]; discriminate.
    + apply (shared_ok_pending (at_pc MLastStatus (mon c)) _ base r0 d).
      * destruct (mon c); exact Hbase.
      * destruct (mon c); exact Hr0.
      * destruct (mon c); exact Hd.
      * rewrite Heq. unfold pending_record, pending_deque.
        rewrite Hpc. now destruct (mon c).
      * destruct (mon c); discriminate.
      * destruct (mon c); discriminate.
    + eapply (lock_ok_release c); [exact Hlk | reflexivity | reflexivity | | exact Hlock].
      cbn [mon]. now destruct (mon c).
    + eapply (snaps_ok_same c); [reflexivity | exact Hsnap].
  - (* MLastStatus *)
    assert (Hp : m_pc (mon c) ≠ MProbe ∧ m_pc (mon c) ≠ MDead)
      by (rewrite Hpc; split; discriminate).
    destruct (locals_ok_target _ Hloc (proj1 Hp)) as (Hidx & Hok & Hlat & Hst & Hts).
    destruct (shared_ok_base _ _ Hsh (proj2 Hp) (proj1 Hp) Hidx)
      as (base & r0 & d & Hbase & Hr0 & Hd & Heq).
    cbn [fst snd]. split.
    2: { cbn. split; [reflexivity|]. intros E. apply Hlock in E.
         rewrite Hpc in E. discriminate. }
    destruct (probe_target_inv env _ _ _ _ base Hbase Hidx) as (st' & Hstep & Hinv').
    rewrite (probe_target_eq _ _ _ _ _ _ Hr0 Hd) in Hstep. injection Hstep as <-.
    split; [|split; [|split]]; cbn [mon shared].
    + unfold locals_ok. cbn [m_pc m_idx]. apply lookup_lt_Some in Hidx. lia.
    + eexists. split; [exact Hinv'|]. cbn [m_pc].
      rewrite Heq. cbn [status_store history last_status].
      unfold pending_record, pending_deque. rewrite Hpc, record_update_total.
      now rewrite Hst, Hok, Hlat, Hts.
    + eapply (lock_ok_same c); [reflexivity | reflexivity | | exact Hlock].
      cbn [mon m_pc]. now rewrite Hpc.
    + eapply (snaps_ok_same c); [reflexivity | exact Hsnap].
  - (* MDead *)
    unfold locals_ok in Hloc. rewrite Hpc in Hloc. contradiction.
Qed.

Lemma step_inv (t : tid) (c : cstate) :
  conc_inv env c →
  conc_inv env (fst (step env t c)) ∧ event_ok (snd (step env t c)).
Proof. destruct t as [|i]; [apply step_mon_inv | apply step_req_inv]. Qed.

Lemma exec_inv (sched : list tid) :
  ∀ c, conc_inv env c →
    conc_inv env (fst (exec env sched c)) ∧
    Forall event_guard (snd (exec env sched c)).
Proof.
  induction sched as [|t sched IH]; intros c Hinv; cbn [exec].
  - split; [exact Hinv | constructor].
  - destruct (step_inv t c Hinv) as [Hinv' Hev].
    destruct (step env t c) as [c' e]. cbn [fst snd] in Hinv', Hev.
    destruct (IH c' Hinv') as [Hfin Htr].
    destruct (exec env sched c') as [c'' tr]. cbn [fst snd] in *.
    split; [exact Hfin|]. destruct e as [ev|]; [constructor; assumption | exact Htr].
Qed.

(** When the scheduler is between two targets, the shared dictionaries are
    those of the sequential loop. *)
Lemma scheduler_refines_loop (sched : list tid) :
  let c := run env sched in
  m_pc (mon c) = MProbe →
  monitor_upto env (m_tick (mon c)) (m_idx (mon c)) = inr (shared c).
Proof.
  intros c Hpc.
  destruct (exec_inv sched init_cstate conc_inv_init) as [(Hloc & Hsh & _) _].
  fold (run env sched) in Hloc, Hsh. fold c in Hloc, Hsh.
  unfold locals_ok in Hloc. rewrite Hpc in Hloc.
  destruct Hsh as (base & Hbase & Hsh). rewrite Hpc in Hsh.
  destruct (monitor_upto_inv env (m_tick (mon c)) (m_idx (mon c)) Hloc)
    as (st & Hst & Hinv).
  rewrite Hst, Hsh. f_equal. exact (state_inv_unique _ _ _ _ Hinv Hbase).
Qed.

End ConcFacts.

Section LockClaims.
Import Prober Exn Monitor Conc.

(** C3, as stated, fails: [last_status], the third per-target dictionary,
    is written after the lock has been released. *)
Lemma last_status_written_unlocked :
  ¬ all_mutations_locked (fun _ _ => silent_world) (replicate 9 Mon).
Proof.
  intros H.
  specialize (H {| ev_tid := Mon; ev_lock := None;
                   ev_access := Write LastStatus "Shakti_2.4GHz" |}).
  assert (Hloc : locked {| ev_tid := Mon; ev_lock := None;
                           ev_access := Write LastStatus "Shakti_2.4GHz" |}).
  { apply H.
    - apply list_elem_of_In. vm_compute. tauto.
    - eexists _, _. reflexivity. }
  discriminate Hloc.
Qed.

(** Inside the critical section the record is torn: after the keys ["ip"]
    and ["status"] have been set it is no record that an update leaves. *)
Lemma torn_inside_lock :
  let env := fun (_ : nat) (_ : string) => lively_world in
  let c := run env [Mon; Mon; Mon; Mon] in
  lock c = Some Mon ∧
  ∃ r, status_store (shared c) !! "Shakti_2.4GHz" = Some r ∧
       ¬ whole env "Shakti_2.4GHz" r.
Proof.
  intros env c. split; [vm_compute; reflexivity|].
  exists {| ip := "192.168.1.1"; status := "UP"; last := None; latency := None |}.
  split; [vm_compute; reflexivity|].
  intros (ip_ & _ & [H|[k H]]); discriminate H.
Qed.

(** C3, amended: in every interleaving of the scheduler with any number of
    requests to [/api/status], every write to [status_store] and to a
    history is made by the scheduler while it holds the lock, every read of
    [status_store] is made by a request while it holds the lock, and every
    record of every response is whole: it is the initial record or the
    record that one complete update wrote, with status, time and latency
    of one and the same probe.  [last_status] is written by the scheduler
    alone, after it has released the lock. *)
Theorem lock_discipline (env : nat → string → world) (sched : list tid) :
  (∀ ev name, ev ∈ trace env sched →
     ev_access ev = Write StatusStore name ∨ ev_access ev = Write History name →
     ev_tid ev = Mon ∧ ev_lock ev = Some Mon) ∧
  (∀ ev, ev ∈ trace env sched → ev_access ev = Read StatusStore →
     ev_lock ev = Some (ev_tid ev)) ∧
  (∀ ev name, ev ∈ trace env sched → ev_access ev = Write LastStatus name →
     ev_tid ev = Mon ∧ ev_lock ev ≠ Some Mon) ∧
  (∀ i snap, response (run env sched) i = Some snap →
     dom snap = list_to_set (WIFI_TARGETS.*1) ∧
     ∀ name r, snap !! name = Some r → whole env name r).
Proof.
  destruct (exec_inv env sched init_cstate (conc_inv_init env))
    as [(_ & _ & _ & Hsnap) Htr].
  fold (run env sched) in Hsnap. fold (trace env sched) in Htr.
  rewrite Forall_forall in Htr.
  split; [|split; [|split]].
  - intros ev name Hin Hacc. specialize (Htr ev Hin). unfold event_guard in Htr.
    destruct Hacc as [E|E]; rewrite E in Htr; exact Htr.
  - intros ev Hin E. specialize (Htr ev Hin). unfold event_guard in Htr.
    rewrite E in Htr. exact Htr.
  - intros ev name Hin E. specialize (Htr ev Hin). unfold event_guard in Htr.
    rewrite E in Htr. exact Htr.
  - exact Hsnap.
Qed.

Lemma lock_discipline_witness :
  let env := fun (_ : nat) (_ : string) => lively_world in
  let sched := [Mon; Mon; Mon; Req 0; Mon; Mon; Mon; Mon; Mon; Mon; Req 0; Req 0; Req 0] in
  let ev := {| ev_tid := Mon; ev_lock := Some Mon;
               ev_access := Write StatusStore "Shakti_2.4GHz" |} in
  let r := {| ip := "192.168.1.1"; status := "UP"; last := Some "2025-01-01 00:00:08";
              latency := Some (round_double 23.4) |} in
  ev ∈ trace env sched ∧
  (ev_tid ev = Mon ∧ ev_lock ev = Some Mon) ∧
  ∃ snap, response (run env sched) 0 = Some snap ∧
    snap !! "Shakti_2.4GHz" = Some r ∧ whole env "Shakti_2.4GHz" r.
Proof.
  intros env sched ev r.
  assert (Hin : ev ∈ trace env sched) by (apply list_elem_of_In; vm_compute; tauto).
  assert (H : response (run env sched) 0 ≫= (fun s => s !! "Shakti_2.4GHz") = Some r)
    by (vm_compute; reflexivity).
  apply bind_Some in H as (snap & Hr & Hl).
  split; [exact Hin|]. split.
  - exact (proj1 (lock_discipline env sched) ev "Shakti_2.4GHz" Hin (or_introl eq_refl)).
  - exists snap. split; [exact Hr|]. split; [exact Hl|].
    exact (proj2 (proj2 (proj2 (proj2 (lock_discipline env sched))) 0 snap Hr)
             "Shakti_2.4GHz" r Hl).
Defined.

End LockClaims.

(** * Further properties *)

(** ** The prober *)

Section ProberMore.
Import Regex Prober.

Lemma py_float_nonneg (g : string) (v : pynum) :
  py_float g = Some v → py_ge v 0 = true.
Proof.
  unfold py_float. destruct (split_dot (list_ascii_of_string g)) as [ip rest].
  cbv zeta. destruct (_ && _); [|discriminate]. intros [= <-].
  apply round_double_nonneg. unfold decimal_value, Qle. cbn [Qnum Qden].
  rewrite Z.mul_1_r, Z.mul_0_l. apply N2Z.is_nonneg.
Qed.

(** A probe is up exactly when [ping] ran to its end and exited with code 0;
    what [ping] printed plays no part. *)
Theorem ping_latency_up_iff (sys : string) (run : list string → pyval → run_result)
    (host : string) (timeout : pyval) (ok : bool) (lat : option pynum) :
  ping_latency sys run host timeout = inr (ok, lat) →
  (ok = true ↔
   ∃ cmd stdout stderr,
     ping_cmd sys host timeout = inr cmd ∧
     run cmd (add_1 timeout) = Completed 0 stdout stderr).
Proof.
  unfold ping_latency.
  destruct (ping_cmd sys host timeout) as [e|cmd]; [discriminate|].
  destruct (run _ _) as [e|rc stdout stderr] eqn:Hrun.
  - intros [= <- <-]. split; [discriminate|].
    intros (c & o & e' & [= <-] & H). rewrite Hrun in H. discriminate.
  - destruct (Z.eqb_spec rc 0) as [->|Hne].
    + cbv zeta. intros H. assert (ok = true) as ->.
      { destruct (search re_ignorecase _ping_time_re _) as [g|];
          [|destruct (search re_ignorecase _windows_avg_re _) as [g|]];
          try destruct (py_float g); now injection H as <- <-. }
      split; eauto 6.
    + intros [= <- <-]. split; [discriminate|].
      intros (c & o & e & [= <-] & H). rewrite Hrun in H.
      injection H as -> _ _. contradiction.
Qed.

Lemma ping_latency_up_iff_witness :
  (true = true ↔
   ∃ cmd stdout stderr,
     ping_cmd "Windows" "192.168.1.1" (PyInt 2) = inr cmd ∧
     (fun (_ : list string) (_ : pyval) => Completed 0 "time<1ms" "")
       cmd (add_1 (PyInt 2)) = Completed 0 stdout stderr).
Proof.
  apply (ping_latency_up_iff "Windows" (fun _ _ => Completed 0 "time<1ms" "")
           "192.168.1.1" (PyInt 2) true (Some (Num 1))).
  vm_compute. reflexivity.
Defined.

(** A latency, when there is one, is a number that is not negative (so not
    NaN either), and the probe that carries it is up. *)
Theorem ping_latency_value (sys : string) (run : list string → pyval → run_result)
    (host : string) (timeout : pyval) (ok : bool) (v : pynum) :
  ping_latency sys run host timeout = inr (ok, Some v) →
  ok = true ∧ py_ge v 0 = true.
Proof.
  unfold ping_latency.
  destruct (ping_cmd sys host timeout) as [e|cmd]; [discriminate|].
  destruct (run _ _) as [e|rc stdout stderr]; [discriminate|].
  destruct (rc =? 0)%Z; [|discriminate]. cbv zeta.
  destruct (search re_ignorecase _ping_time_re _) as [g|];
    [|destruct (search re_ignorecase _windows_avg_re _) as [g|]];
    try destruct (py_float g) as [w|] eqn:Hg; try discriminate;
    intros [= <- <-]; (split; [reflexivity|]); exact (py_float_nonneg g w Hg).
Qed.

Lemma ping_latency_value_witness :
  true = true ∧ py_ge (round_double 23.4) 0 = true.
Proof.
  apply (ping_latency_value "Linux"
           (fun _ _ => Completed 0 "64 bytes from 192.168.1.1: time=23.4 ms" "")
           "192.168.1.1" (PyInt 2) true (round_double 23.4)).
  vm_compute. reflexivity.
Defined.

End ProberMore.

(** ** The speed-test gateway *)

Section GatewayMore.
Import Regex Prober Exn Ssid Speedtest Health.

(** Label and colour go together: [compute_health] returns one of five
    pairs, and two results have the same label exactly when they have the
    same colour. *)
Theorem compute_health_pairs (a b : option pynum) :
  (compute_health a = ("Unknown", "text-gray-400") ∨
   compute_health a = ("Excellent", "text-green-400") ∨
   compute_health a = ("Good", "text-yellow-400") ∨
   compute_health a = ("Fair", "text-orange-400") ∨
   compute_health a = ("Weak", "text-red-500")) ∧
  (fst (compute_health a) = fst (compute_health b) ↔
   snd (compute_health a) = snd (compute_health b)).
Proof.
  split.
  - unfold compute_health. destruct a as [d|]; [|tauto].
    destruct (py_ge d 100), (py_ge d 50), (py_ge d 10); tauto.
  - unfold compute_health. destruct a as [x|], b as [y|];
      repeat match goal with |- context [py_ge ?d ?n] => destruct (py_ge d n) end;
      cbn [fst snd]; split; intros H; first [reflexivity | discriminate H].
Qed.




(** *** Rounding before classification *)





End GatewayMore.

(** ** The SSID lookup *)

Section SsidMore.
Import Regex Prober Exn Ssid Lines.

Ltac ascii_cases x :=
  destruct x as [[] [] [] [] [] [] [] []]; vm_compute; try reflexivity; try discriminate.

(** A literal, read as it is written. *)
Lemma match_lit_exact (f : flags) (word : string) (r : list node) (rest : list ascii) :
  ignorecase f = false →
  ∀ cap prev,
    match_here f (lit word ++ r) cap prev (list_ascii_of_string word ++ rest)
    = match_here f r cap (prev_after prev (list_ascii_of_string word)) rest.
Proof.
  intros Hf. unfold lit.
  induction (list_ascii_of_string word) as [|c w IH]; intros cap prev; [reflexivity|].
  cbn [map app match_here repeat_q cmatch]. rewrite Hf, Ascii.eqb_refl.
  now rewrite IH.
Qed.

Lemma match_bol (f : flags) (r : list node) (pre s : list ascii) (cap : list ascii) :
  multiline f = true → at_line_start pre = true →
  match_here f (Bol :: r) cap (prev_after None pre) s
  = match_here f r cap (prev_after None pre) s.
Proof.
  unfold at_line_start. intros Hm H. cbn [match_here].
  destruct (prev_after None pre) as [x|]; [|reflexivity]. now rewrite Hm, H.
Qed.

Lemma match_eol (f : flags) (rest cap : list ascii) (prev : option ascii) :
  multiline f = true → at_line_end rest = true →
  match_here f [Eol] cap prev rest = Some cap.
Proof.
  unfold at_line_end. intros Hm H. cbn [match_here].
  destruct rest as [|x rest]; [reflexivity|]. now rewrite H, Hm.
Qed.

Lemma stops_line_end (f : flags) (rest : list ascii) :
  at_line_end rest = true → stops (cmatch (ignorecase f) CDot) rest.
Proof.
  unfold at_line_end, stops. destruct rest as [|x rest]; [tauto|].
  intros H. cbn [cmatch]. now rewrite H.
Qed.

Lemma dot_of_no_newline (ic : bool) (s : list ascii) :
  no_newline s = true → forallb (cmatch ic CDot) s = true.
Proof. intros H. exact H. Qed.

(** The line [SSID : name] of [netsh], matched where it starts. *)
Lemma windows_ssid_matches (pre ws0 ws1 ws2 name rest : list ascii) :
  at_line_start pre = true →
  forallb is_space ws0 = true → forallb is_space ws1 = true →
  forallb is_space ws2 = true →
  name ≠ [] → no_newline name = true → stops is_space name →
  at_line_end rest = true →
  match_here re_multiline windows_ssid_re [] (prev_after None pre)
    (ws0 ++ list_ascii_of_string "SSID" ++ ws1 ++ ":"%char :: ws2 ++ name ++ rest)
  = Some name.
Proof.
  intros Hstart H0 H1 H2 Hne Hname Hhead Hend.
  unfold windows_ssid_re. cbn [app].
  rewrite match_bol by (exact Hstart || reflexivity).
  apply match_star; [exact H0 | reflexivity|].
  rewrite (match_lit_exact re_multiline "SSID") by reflexivity.
  apply match_star; [exact H1 | reflexivity|].
  rewrite match_one by reflexivity.
  apply match_star; [exact H2 | destruct name; [congruence | exact Hhead] |].
  apply match_group_plus; [exact Hne | exact Hname | now apply stops_line_end|].
  now apply match_eol.
Qed.

(** The line [ SSID: name] of [airport]. *)
Lemma airport_ssid_matches (name rest : list ascii) (prev : option ascii) :
  name ≠ [] → no_newline name = true → at_line_end rest = true →
  match_here re_noflags airport_ssid_re [] prev
    (list_ascii_of_string " SSID: " ++ name ++ rest)
  = Some name.
Proof.
  intros Hne Hname Hend. unfold airport_ssid_re.
  rewrite (match_lit_exact re_noflags " SSID: ") by reflexivity.
  apply match_group_plus; [exact Hne | exact Hname | now apply stops_line_end|].
  reflexivity.
Qed.

(** On Windows the name is what follows [SSID :] on the first line that
    starts with it, without the white space around it.  The white space
    after the colon may run over the end of a line: when nothing follows the
    colon, the text of the next line is taken. *)
Theorem ssid_windows (sys : string) (check_output : list string → result string)
    (out : string) (pre ws0 ws1 ws2 name rest : list ascii) :
  lower sys = "windows" →
  check_output ["netsh"; "wlan"; "show"; "interfaces"] = inr out →
  list_ascii_of_string out
  = pre ++ ws0 ++ list_ascii_of_string "SSID" ++ ws1 ++ ":"%char :: ws2 ++ name ++ rest →
  at_line_start pre = true →
  no_match_before re_multiline windows_ssid_re None pre
    (ws0 ++ list_ascii_of_string "SSID" ++ ws1 ++ ":"%char :: ws2 ++ name ++ rest) = true →
  forallb is_space ws0 = true → forallb is_space ws1 = true →
  forallb is_space ws2 = true →
  name ≠ [] → no_newline name = true → stops is_space name →
  at_line_end rest = true →
  get_current_ssid sys check_output = inr (strip (string_of_list_ascii name)).
Proof.
  intros Hsys Hco Hout Hstart Hpre H0 H1 H2 Hne Hname Hhead Hend.
  unfold get_current_ssid, ssid_try. rewrite Hsys.
  cbn [String.eqb Ascii.eqb Bool.eqb]. rewrite Hco. cbn [bind].
  rewrite (search_first re_multiline windows_ssid_re out pre _ name Hout Hpre).
  - reflexivity.
  - now apply windows_ssid_matches.
Qed.

Lemma ssid_windows_witness :
  let nl := String newline "" in
  get_current_ssid "Windows"
    (fun _ => inr ("    State                  : connected" +:+ nl +:+
                   "    SSID                   : Shakti_5GHz " +:+ nl +:+
                   "    BSSID                  : aa:bb:cc:dd:ee:ff" +:+ nl))
  = inr "Shakti_5GHz" ∧
  get_current_ssid "Windows"
    (fun _ => inr ("    SSID                   : " +:+ nl +:+
                   "    BSSID                  : aa:bb:cc:dd:ee:ff" +:+ nl))
  = inr "BSSID                  : aa:bb:cc:dd:ee:ff".
Proof.
  intros nl. split.
  - apply ssid_windows with
      (out := "    State                  : connected" +:+ nl +:+
              "    SSID                   : Shakti_5GHz " +:+ nl +:+
              "    BSSID                  : aa:bb:cc:dd:ee:ff" +:+ nl)
      (pre := list_ascii_of_string ("    State                  : connected" +:+ nl))
      (ws0 := list_ascii_of_string "    ")
      (ws1 := list_ascii_of_string "                   ")
      (ws2 := list_ascii_of_string " ")
      (name := list_ascii_of_string "Shakti_5GHz ")
      (rest := list_ascii_of_string
                 (nl +:+ "    BSSID                  : aa:bb:cc:dd:ee:ff" +:+ nl));
      first [reflexivity | discriminate].
  - apply ssid_windows with
      (out := "    SSID                   : " +:+ nl +:+
              "    BSSID                  : aa:bb:cc:dd:ee:ff" +:+ nl)
      (pre := [])
      (ws0 := list_ascii_of_string "    ")
      (ws1 := list_ascii_of_string "                   ")
      (ws2 := list_ascii_of_string (" " +:+ nl +:+ "    "))
      (name := list_ascii_of_string "BSSID                  : aa:bb:cc:dd:ee:ff")
      (rest := list_ascii_of_string nl);
      first [reflexivity | discriminate].
Defined.

(** On macOS the name is what follows the first [ SSID: ] up to the end of
    its line, without the white space around it. *)
Theorem ssid_darwin (sys : string) (check_output : list string → result string)
    (out : string) (pre name rest : list ascii) :
  lower sys = "darwin" →
  check_output [airport; "-I"] = inr out →
  list_ascii_of_string out = pre ++ list_ascii_of_string " SSID: " ++ name ++ rest →
  no_match_before re_noflags airport_ssid_re None pre
    (list_ascii_of_string " SSID: " ++ name ++ rest) = true →
  name ≠ [] → no_newline name = true → at_line_end rest = true →
  get_current_ssid sys check_output = inr (strip (string_of_list_ascii name)).
Proof.
  intros Hsys Hco Hout Hpre Hne Hname Hend.
  unfold get_current_ssid, ssid_try. rewrite Hsys.
  cbn [String.eqb Ascii.eqb Bool.eqb]. rewrite Hco. cbn [bind].
  rewrite (search_first re_noflags airport_ssid_re out pre _ name Hout Hpre).
  - reflexivity.
  - now apply airport_ssid_matches.
Qed.

Lemma ssid_darwin_witness :
  let nl := String newline "" in
  get_current_ssid "Darwin"
    (fun _ => inr ("     agrCtlRSSI: -52" +:+ nl +:+
                   "          BSSID: aa:bb:cc:dd:ee:ff" +:+ nl +:+
                   "           SSID: Shakti 5GHz" +:+ nl +:+
                   "        channel: 36"))
  = inr "Shakti 5GHz".
Proof.
  intros nl.
  apply ssid_darwin with
    (out := "     agrCtlRSSI: -52" +:+ nl +:+
            "          BSSID: aa:bb:cc:dd:ee:ff" +:+ nl +:+
            "           SSID: Shakti 5GHz" +:+ nl +:+
            "        channel: 36")
    (pre := list_ascii_of_string ("     agrCtlRSSI: -52" +:+ nl +:+
                                  "          BSSID: aa:bb:cc:dd:ee:ff" +:+ nl +:+
                                  "          "))
    (name := list_ascii_of_string "Shakti 5GHz")
    (rest := list_ascii_of_string (nl +:+ "        channel: 36"));
    first [reflexivity | discriminate].
Defined.

(** *** Stripping *)

Lemma lstrip_stops (l : list ascii) : stops is_space (lstrip l).
Proof.
  induction l as [|x l IH]; cbn [lstrip]; [exact I|].
  destruct (is_space x) eqn:E; [exact IH | exact E].
Qed.

Lemma lstrip_fixed (l : list ascii) : stops is_space l → lstrip l = l.
Proof. destruct l as [|x l]; [reflexivity|]. cbn. now intros ->. Qed.

Lemma lstrip_snoc (l : list ascii) (c : ascii) :
  is_space c = false → lstrip (l ++ [c]) = lstrip l ++ [c].
Proof.
  intros Hc. induction l as [|x l IH]; cbn [app lstrip]; [now rewrite Hc|].
  now destruct (is_space x).
Qed.

Lemma lstrip_spaces (l : list ascii) : forallb is_space l = true → lstrip l = [].
Proof.
  induction l as [|x l IH]; [reflexivity|]. cbn [forallb lstrip].
  intros H. apply andb_prop in H as [-> H]. now apply IH.
Qed.

Lemma rstrip_cons (c : ascii) (l : list ascii) :
  is_space c = false →
  rev (lstrip (rev (c :: l))) = c :: rev (lstrip (rev l)).
Proof.
  intros Hc. cbn [rev]. rewrite lstrip_snoc by exact Hc.
  now rewrite rev_app_distr.
Qed.

Lemma strip_list_idem (l : list ascii) :
  rev (lstrip (rev (lstrip (rev (lstrip (rev (lstrip l)))))))
  = rev (lstrip (rev (lstrip l))).
Proof.
  pose proof (lstrip_stops l) as Hy.
  destruct (lstrip l) as [|c y] eqn:E; [reflexivity|].
  cbn [stops] in Hy. rewrite (rstrip_cons c y Hy).
  rewrite (lstrip_fixed (c :: _)) by exact Hy.
  rewrite <- (rstrip_cons c y Hy). rewrite rev_involutive.
  f_equal. apply lstrip_fixed. apply lstrip_stops.
Qed.

Lemma strip_idem (s : string) : strip (strip s) = strip s.
Proof.
  unfold strip. rewrite list_ascii_of_string_of_list_ascii.
  f_equal. apply strip_list_idem.
Qed.

(** The name that [get_current_ssid] returns never begins or ends with
    white space: stripping it again changes nothing. *)
Theorem ssid_is_stripped (sys : string) (check_output : list string → result string)
    (s : string) :
  get_current_ssid sys check_output = inr s → strip s = s.
Proof.
  unfold get_current_ssid, ssid_try.
  destruct (String.eqb (lower sys) "windows").
  { destruct (check_output ["netsh"; "wlan"; "show"; "interfaces"]) as [e|out];
      cbn [bind try_except]; [now intros [= <-]|].
    destruct (search re_multiline windows_ssid_re out); cbn [bind try_except];
      intros [= <-]; [apply strip_idem | reflexivity]. }
  destruct (String.eqb (lower sys) "linux").
  { destruct (check_output ["iwgetid"; "-r"]) as [e|out];
      cbn [bind try_except]; intros [= <-]; [reflexivity | apply strip_idem]. }
  destruct (String.eqb (lower sys) "darwin").
  { destruct (check_output [airport; "-I"]) as [e|out];
      cbn [bind try_except]; [now intros [= <-]|].
    destruct (search re_noflags airport_ssid_re out); cbn [bind try_except];
      intros [= <-]; [apply strip_idem | reflexivity]. }
  cbn [bind try_except]. now intros [= <-].
Qed.

Lemma ssid_is_stripped_witness :
  strip (strip (String newline "  home net  ")) = strip (String newline "  home net  ").
Proof.
  apply (ssid_is_stripped "Linux" (fun _ => inr (String newline "  home net  "))).
  reflexivity.
Defined.

(** On Linux the name is the output of [iwgetid -r] without the white space
    around it; an output of white space alone gives the empty name, not
    "Unknown". *)
Theorem ssid_linux (sys : string) (check_output : list string → result string)
    (out : string) :
  lower sys = "linux" →
  check_output ["iwgetid"; "-r"] = inr out →
  get_current_ssid sys check_output = inr (strip out) ∧
  (forallb is_space (list_ascii_of_string out) = true →
     get_current_ssid sys check_output = inr "").
Proof.
  intros Hsys Hco.
  assert (H : get_current_ssid sys check_output = inr (strip out)).
  { unfold get_current_ssid, ssid_try. rewrite Hsys.
    cbn [String.eqb Ascii.eqb Bool.eqb]. now rewrite Hco. }
  split; [exact H|]. intros Hsp. rewrite H. unfold strip.
  now rewrite (lstrip_spaces _ Hsp).
Qed.

Lemma ssid_linux_witness :
  get_current_ssid "Linux" (fun _ => inr (String newline "")) = inr "".
Proof.
  apply (ssid_linux "Linux" (fun _ => inr (String newline "")) (String newline ""));
    reflexivity.
Defined.

End SsidMore.

(** ** The scheduler *)

Section MonitorMore.
Import Regex Prober Exn Monitor.

Lemma monitor_upto_state (env : nat → string → world) (n idx : nat) (st : state) :
  idx ≤ length WIFI_TARGETS → monitor_upto env n idx = inr st → state_inv env n idx st.
Proof.
  intros Hle Hst. destruct (monitor_upto_inv env n idx Hle) as (st' & Hst' & Hinv).
  rewrite Hst in Hst'. now injection Hst' as <-.
Qed.

(** What the loop holds for a name: nothing, or what [state_inv] says. *)
Lemma state_inv_lookup (env : nat → string → world) (n idx : nat) (st : state)
    (name : string) (r : status_record) :
  state_inv env n idx st → status_store st !! name = Some r →
  ∃ j ip_, WIFI_TARGETS !! j = Some (name, ip_) ∧
    r = record_after env name ip_ (probes_done n idx j) ∧
    history st !! name = Some (history_after env name ip_ (probes_done n idx j)) ∧
    last_status st !! name = Some (last_status_after env name ip_ (probes_done n idx j)).
Proof.
  intros (Hdom & _ & _ & Hall) Hr.
  assert (Hname : name ∈ targets) by (rewrite <- Hdom; apply elem_of_dom; eauto).
  destruct (target_of_elem name Hname) as (j & ip_ & Hj).
  destruct (Hall j name ip_ Hj) as (Hrec & Hh & Hl).
  exists j, ip_. rewrite Hr in Hrec. injection Hrec as ->. auto.
Qed.

(** [last_status] always holds the status of the record: line 109 repeats
    what line 107 wrote. *)
Theorem last_status_mirrors (env : nat → string → world) (n idx : nat) (st : state)
    (name : string) (r : status_record) :
  idx ≤ length WIFI_TARGETS →
  monitor_upto env n idx = inr st →
  status_store st !! name = Some r →
  last_status st !! name = Some (status r).
Proof.
  intros Hle Hst Hr. pose proof (monitor_upto_state env n idx st Hle Hst) as Hinv.
  destruct (state_inv_lookup env n idx st name r Hinv Hr) as (j & ip_ & _ & -> & _ & Hl).
  rewrite Hl. now destruct (probes_done n idx j).
Qed.

Lemma last_status_mirrors_witness :
  let env := fun (k : nat) (_ : string) => if k =? 0 then lively_world else silent_world in
  let r := {| ip := "192.168.1.2"; status := "DOWN";
              last := Some "2025-01-01 00:00:00"; latency := None |} in
  ∃ st, monitor_upto env 1 4 = inr st ∧
    status_store st !! "SHAKTI_5GHz" = Some r ∧
    last_status st !! "SHAKTI_5GHz" = Some "DOWN".
Proof.
  intros env r.
  assert (Hle : 4 ≤ length WIFI_TARGETS) by (vm_compute; lia).
  assert (H1 : match monitor_upto env 1 4 with inr s => Some s | inl _ => None end
               ≫= (fun s => status_store s !! "SHAKTI_5GHz") = Some r)
    by (vm_compute; reflexivity).
  apply bind_Some in H1 as (st & Hst & Hr). apply result_inr in Hst.
  exists st. split; [exact Hst|]. split; [exact Hr|].
  exact (last_status_mirrors env 1 4 st "SHAKTI_5GHz" r Hle Hst Hr).
Defined.

Lemma history_after_empty (env : nat → string → world) (name ip_ : string) (c : nat) :
  items (history_after env name ip_ c) = [] ↔ c = 0.
Proof.
  unfold history_after. cbn [items]. split.
  - intros H. apply (f_equal (@length _)) in H.
    rewrite length_map, length_seq in H. cbn [length] in H.
    unfold HISTORY_LENGTH in H. lia.
  - now intros ->.
Qed.

(** A target is "Unknown" only until its first probe: its status is
    "Unknown" exactly when it has no time of a last check, and exactly when
    its history is empty; after the first iteration no target is
    "Unknown". *)
Theorem unknown_until_probed (env : nat → string → world) (n idx : nat) (st : state)
    (name : string) (r : status_record) (d : deque) :
  idx ≤ length WIFI_TARGETS →
  monitor_upto env n idx = inr st →
  status_store st !! name = Some r →
  history st !! name = Some d →
  (status r = "Unknown" ↔ last r = None) ∧
  (last r = None ↔ items d = []) ∧
  (1 ≤ n → status r = "UP" ∨ status r = "DOWN").
Proof.
  intros Hle Hst Hr Hd. pose proof (monitor_upto_state env n idx st Hle Hst) as Hinv.
  destruct (state_inv_lookup env n idx st name r Hinv Hr) as (j & ip_ & _ & -> & Hh & _).
  rewrite Hd in Hh. injection Hh as ->. rewrite history_after_empty.
  assert (Hn : 1 ≤ n → probes_done n idx j ≠ 0)
    by (unfold probes_done; destruct (j <? idx); lia).
  destruct (probes_done n idx j) as [|k]; cbn [record_after].
  - split; [tauto|]. split; [tauto|]. intros H. now apply Hn in H.
  - unfold record_at. cbn [status last].
    split; [|split].
    + split; [|discriminate]. destruct (fst (probe_result _ _)); discriminate.
    + split; discriminate.
    + intros _. destruct (fst (probe_result _ _)); [now left | now right].
Qed.

Lemma unknown_until_probed_witness :
  let env := fun (_ : nat) (_ : string) => silent_world in
  ∃ st r d, monitor_upto env 0 2 = inr st ∧
    status_store st !! "Airtel_Zerotouch" = Some r ∧
    history st !! "Airtel_Zerotouch" = Some d ∧
    (status r = "Unknown" ↔ last r = None) ∧ (last r = None ↔ items d = []).
Proof.
  intros env.
  assert (Hle : 2 ≤ length WIFI_TARGETS) by (vm_compute; lia).
  assert (H1 : match monitor_upto env 0 2 with inr s => Some s | inl _ => None end
               ≫= (fun s => status_store s !! "Airtel_Zerotouch")
               = Some (init_record "192.168.1.9")) by (vm_compute; reflexivity).
  assert (H2 : match monitor_upto env 0 2 with inr s => Some s | inl _ => None end
               ≫= (fun s => history s !! "Airtel_Zerotouch")
               = Some {| maxlen := 300; items := [] |}) by (vm_compute; reflexivity).
  apply bind_Some in H1 as (st & Hst & Hr). apply bind_Some in H2 as (st' & Hst' & Hd).
  rewrite Hst in Hst'. injection Hst' as <-. apply result_inr in Hst.
  exists st, (init_record "192.168.1.9"), {| maxlen := 300; items := [] |}.
  split; [exact Hst|]. split; [exact Hr|]. split; [exact Hd|].
  destruct (unknown_until_probed env 0 2 st "Airtel_Zerotouch" _ _ Hle Hst Hr Hd)
    as (Ha & Hb & _).
  split; [exact Ha | exact Hb].
Defined.

Lemma history_after_last (env : nat → string → world) (name ip_ : string) (k : nat) :
  list.last (items (history_after env name ip_ (S k)))
  = Some (sample_at env name ip_ k).
Proof.
  unfold history_after. cbn [items].
  assert (∃ m, min (S k) HISTORY_LENGTH = S m ∧ S k - S m + m = k) as (m & -> & Hk).
  { unfold HISTORY_LENGTH. exists (min (S k) 300 - 1). lia. }
  rewrite seq_snoc, map_app. cbn [map]. now rewrite last_snoc, Hk.
Qed.

(** The newest sample of a history is the probe that the record shows: the
    same time, the same latency, and the flag 1 exactly when the status is
    "UP". *)
Theorem newest_sample_is_record (env : nat → string → world) (n idx : nat) (st : state)
    (name : string) (r : status_record) (d : deque) (ts : string) :
  idx ≤ length WIFI_TARGETS →
  monitor_upto env n idx = inr st →
  status_store st !! name = Some r →
  history st !! name = Some d →
  last r = Some ts →
  list.last (items d)
  = Some (ts, if String.eqb (status r) "UP" then 1%Z else 0%Z, latency r).
Proof.
  intros Hle Hst Hr Hd Hts. pose proof (monitor_upto_state env n idx st Hle Hst) as Hinv.
  destruct (state_inv_lookup env n idx st name r Hinv Hr) as (j & ip_ & _ & -> & Hh & _).
  rewrite Hd in Hh. injection Hh as ->.
  destruct (probes_done n idx j) as [|k]; [discriminate|].
  rewrite history_after_last. cbn [record_after] in *. unfold record_at in *.
  cbn [last status latency] in *. injection Hts as <-.
  unfold sample_at, sample_of. now destruct (fst (probe_result _ _)).
Qed.

Lemma newest_sample_is_record_witness :
  let env := fun (_ : nat) (_ : string) => lively_world in
  let r := {| ip := "192.168.1.1"; status := "UP"; last := Some "2025-01-01 00:00:08";
              latency := Some (round_double 23.4) |} in
  ∃ st d, monitor_upto env 3 1 = inr st ∧
    status_store st !! "Shakti_2.4GHz" = Some r ∧
    history st !! "Shakti_2.4GHz" = Some d ∧
    list.last (items d) = Some ("2025-01-01 00:00:08", 1%Z, Some (round_double 23.4)).
Proof.
  intros env r.
  assert (Hle : 1 ≤ length WIFI_TARGETS) by (vm_compute; lia).
  assert (H1 : match monitor_upto env 3 1 with inr s => Some s | inl _ => None end
               ≫= (fun s => status_store s !! "Shakti_2.4GHz") = Some r)
    by (vm_compute; reflexivity).
  assert (H2 : is_Some (match monitor_upto env 3 1 with inr s => Some s | inl _ => None end
               ≫= (fun s => history s !! "Shakti_2.4GHz")))
    by (vm_compute; eauto).
  apply bind_Some in H1 as (st & Hst & Hr). destruct H2 as [d H2].
  apply bind_Some in H2 as (st' & Hst' & Hd).
  rewrite Hst in Hst'. injection Hst' as <-. apply result_inr in Hst.
  exists st, d. split; [exact Hst|]. split; [exact Hr|]. split; [exact Hd|].
  exact (newest_sample_is_record env 3 1 st "Shakti_2.4GHz" r d _ Hle Hst Hr Hd eq_refl).
Defined.

(** Every sample of every history has the flag 0 or 1, and a sample with
    the flag 0 has no latency. *)
Theorem samples_well_formed (env : nat → string → world) (n idx : nat) (st : state)
    (name : string) (d : deque) (ts : string) (flag : Z) (lat : option pynum) :
  idx ≤ length WIFI_TARGETS →
  monitor_upto env n idx = inr st →
  history st !! name = Some d →
  (ts, flag, lat) ∈ items d →
  (flag = 0%Z ∨ flag = 1%Z) ∧ (flag = 0%Z → lat = None).
Proof.
  intros Hle Hst Hd Hin. pose proof (monitor_upto_state env n idx st Hle Hst) as Hinv.
  pose proof Hinv as (_ & Hdom & _ & Hall).
  assert (Hname : name ∈ targets) by (rewrite <- Hdom; apply elem_of_dom; eauto).
  destruct (target_of_elem name Hname) as (j & ip_ & Hj).
  destruct (Hall j name ip_ Hj) as (_ & Hh & _).
  rewrite Hd in Hh. injection Hh as ->.
  unfold history_after in Hin. cbn [items] in Hin.
  apply list_elem_of_In, in_map_iff in Hin as (k & Hk & _).
  unfold sample_at, sample_of in Hk.
  pose proof (probe_result_down (env k name) ip_) as Hdown.
  destruct (fst (probe_result (env k name) ip_)); injection Hk as <- <- <-.
  - split; [now right | discriminate].
  - split; [now left | auto].
Qed.

Lemma samples_well_formed_witness :
  let env := fun (k : nat) (_ : string) => if k =? 0 then lively_world else silent_world in
  ∃ st d, monitor_upto env 2 0 = inr st ∧
    history st !! "Shakti_2.4GHz" = Some d ∧
    ("2025-01-01 00:00:00", 0%Z, None) ∈ items d ∧
    (0%Z = 0%Z ∨ 0%Z = 1%Z) ∧ (0%Z = 0%Z → @None pynum = None).
Proof.
  intros env.
  assert (Hle : 0 ≤ length WIFI_TARGETS) by lia.
  assert (H2 : match monitor_upto env 2 0 with inr s => Some s | inl _ => None end
               ≫= (fun s => history s !! "Shakti_2.4GHz")
               = Some {| maxlen := 300;
                         items := [("2025-01-01 00:00:08", 1%Z, Some (round_double 23.4));
                                   ("2025-01-01 00:00:00", 0%Z, None)] |})
    by (vm_compute; reflexivity).
  apply bind_Some in H2 as (st & Hst & Hd). apply result_inr in Hst.
  eexists st, _. split; [exact Hst|]. split; [exact Hd|].
  assert (Hin : ("2025-01-01 00:00:00", 0%Z, @None pynum)
                ∈ [("2025-01-01 00:00:08", 1%Z, Some (round_double 23.4));
                   ("2025-01-01 00:00:00", 0%Z, None)])
    by (apply list_elem_of_In; right; left; reflexivity).
  split; [exact Hin|].
  exact (samples_well_formed env 2 0 st "Shakti_2.4GHz" _ _ _ _ Hle Hst Hd Hin).
Defined.

Lemma history_after_ext (env1 env2 : nat → string → world) (name ip_ : string) (c : nat) :
  (∀ k, probe (env1 k name) ip_ = probe (env2 k name) ip_ ∧
        now (env1 k name) = now (env2 k name)) →
  history_after env1 name ip_ c = history_after env2 name ip_ c ∧
  record_after env1 name ip_ c = record_after env2 name ip_ c.
Proof.
  intros H.
  assert (Hp : ∀ k, probe_result (env1 k name) ip_ = probe_result (env2 k name) ip_).
  { intros k. unfold probe_result. now rewrite (proj1 (H k)). }
  split.
  - unfold history_after. f_equal. apply map_ext. intros k.
    unfold sample_at. cbv zeta. now rewrite Hp, (proj2 (H k)).
  - destruct c as [|k]; [reflexivity|]. cbn [record_after]. unfold record_at.
    cbv zeta. now rewrite Hp, (proj2 (H k)).
Qed.

(** What the loop holds for a target depends on the probes of that target
    alone: two runs in which, at every pass, [ping_latency] returns the same
    pair for this target and the clock reads the same then, give it the
    same record and the same history, whatever the platform and the
    subprocess are and whatever happens to the other targets. *)
Theorem targets_independent (env1 env2 : nat → string → world) (n idx : nat)
    (st1 st2 : state) (name : string) :
  idx ≤ length WIFI_TARGETS →
  (∀ k ip_, (name, ip_) ∈ WIFI_TARGETS →
     probe (env1 k name) ip_ = probe (env2 k name) ip_ ∧
     now (env1 k name) = now (env2 k name)) →
  monitor_upto env1 n idx = inr st1 →
  monitor_upto env2 n idx = inr st2 →
  status_store st1 !! name = status_store st2 !! name ∧
  history st1 !! name = history st2 !! name.
Proof.
  intros Hle Hagree H1 H2.
  pose proof (monitor_upto_state env1 n idx st1 Hle H1) as (Hd1 & Hh1 & _ & Ha).
  pose proof (monitor_upto_state env2 n idx st2 Hle H2) as (Hd2 & Hh2 & _ & Hb).
  destruct (decide (name ∈ targets)) as [Hin|Hout].
  - destruct (target_of_elem name Hin) as (j & ip_ & Hj).
    destruct (Ha j name ip_ Hj) as (-> & -> & _).
    destruct (Hb j name ip_ Hj) as (-> & -> & _).
    assert (Hel : (name, ip_) ∈ WIFI_TARGETS) by (eapply list_elem_of_lookup_2; exact Hj).
    destruct (history_after_ext env1 env2 name ip_ (probes_done n idx j)
                (fun k => Hagree k ip_ Hel)) as [-> ->].
    split; reflexivity.
  - pose proof Hout as O1. pose proof Hout as O2.
    pose proof Hout as O3. pose proof Hout as O4.
    rewrite <- Hd1 in O1. rewrite <- Hd2 in O2. rewrite <- Hh1 in O3. rewrite <- Hh2 in O4.
    apply not_elem_of_dom in O1, O2, O3, O4. now rewrite O1, O2, O3, O4.
Qed.

Lemma targets_independent_witness :
  let env1 := fun (_ : nat) (_ : string) => lively_world in
  let windows_world :=
    {| platform_system := "Windows";
       subprocess_run := fun cmd _ =>
         match cmd with
         | ["ping"; "-n"; "1"; "-w"; "2000"; "192.168.1.2"] =>
             Completed 0 "Reply from 192.168.1.2: bytes=32 time=23.4ms TTL=64" ""
         | _ => Raised FileNotFoundError
         end;
       now := "2025-01-01 00:00:08" |} in
  let env2 := fun (_ : nat) (name : string) =>
                if String.eqb name "SHAKTI_5GHz" then windows_world else silent_world in
  ∃ st1 st2, monitor_upto env1 2 5 = inr st1 ∧ monitor_upto env2 2 5 = inr st2 ∧
    status_store st1 !! "SHAKTI_5GHz" = status_store st2 !! "SHAKTI_5GHz" ∧
    history st1 !! "SHAKTI_5GHz" = history st2 !! "SHAKTI_5GHz".
Proof.
  intros env1 windows_world env2.
  assert (Hle : 5 ≤ length WIFI_TARGETS) by (vm_compute; lia).
  destruct (monitor_upto_inv env1 2 5 Hle) as (st1 & H1 & _).
  destruct (monitor_upto_inv env2 2 5 Hle) as (st2 & H2 & _).
  exists st1, st2. split; [exact H1|]. split; [exact H2|].
  apply (targets_independent env1 env2 2 5 st1 st2 "SHAKTI_5GHz" Hle); [|exact H1|exact H2].
  intros k ip_ Hel.
  assert (ip_ = "192.168.1.2") as ->.
  { apply list_elem_of_In in Hel. unfold WIFI_TARGETS in Hel. cbn [In] in Hel.
    intuition congruence. }
  split; vm_compute; reflexivity.
Defined.

End MonitorMore.

(** ** The threads *)

Section ThreadsMore.
Import Regex Prober Exn Monitor Conc Threads.

Lemma run_inv (env : nat → string → world) (sched : list tid) : conc_inv env (run env sched).
Proof. exact (proj1 (exec_inv env sched init_cstate (conc_inv_init env))). Qed.

Lemma inside_iff (c : cstate) (i : nat) :
  inside (reqs c !! i) = true ↔
  (reqs c !! i = Some RLocked ∨ ∃ snap, reqs c !! i = Some (RCopied snap)).
Proof.
  unfold inside. destruct (reqs c !! i) as [[| |s|s]|]; split;
    first [discriminate | intros [H|[? H]]; discriminate H | eauto].
Qed.

(** At most one thread is inside [with lock] at any time, and the lock
    names it: the scheduler is between entering and leaving exactly when it
    holds the lock, a request that is inside holds the lock, and no two
    requests are inside together. *)
Theorem mutual_exclusion (env : nat → string → world) (sched : list tid) :
  let c := run env sched in
  (in_critical (m_pc (mon c)) = true ↔ lock c = Some Mon) ∧
  (∀ i, inside (reqs c !! i) = true ↔ lock c = Some (Req i)) ∧
  (∀ i, inside (reqs c !! i) = true → in_critical (m_pc (mon c)) = false) ∧
  (∀ i j, inside (reqs c !! i) = true → inside (reqs c !! j) = true → i = j).
Proof.
  intros c. destruct (run_inv env sched) as (_ & _ & [Hmon Hreq] & _). fold c in Hmon, Hreq.
  assert (Hin : ∀ i, inside (reqs c !! i) = true ↔ lock c = Some (Req i)).
  { intros i. rewrite inside_iff. symmetry. apply Hreq. }
  split; [symmetry; exact Hmon|]. split; [exact Hin|]. split.
  - intros i Hi. apply Hin in Hi.
    destruct (in_critical (m_pc (mon c))) eqn:E; [|reflexivity].
    assert (lock c = Some Mon) by now apply Hmon. congruence.
  - intros i j Hi Hj. apply Hin in Hi, Hj. congruence.
Qed.

Lemma mutual_exclusion_witness :
  let c := run (fun _ _ => lively_world) [Req 0; Req 1; Mon; Mon; Mon; Req 0] in
  inside (reqs c !! 0) = true ∧ lock c = Some (Req 0) ∧
  in_critical (m_pc (mon c)) = false.
Proof.
  intros c.
  assert (Hin : inside (reqs c !! 0) = true) by (vm_compute; reflexivity).
  destruct (mutual_exclusion (fun _ _ => lively_world)
              [Req 0; Req 1; Mon; Mon; Mon; Req 0]) as (_ & H1 & H2 & _).
  split; [exact Hin|]. split; [apply H1; exact Hin | apply H2 with 0; exact Hin].
Defined.

Lemma set_key_moves (f : status_record → status_record) (next : mon_pc) (c : cstate) :
  snd (set_key f next c) ≠ None.
Proof. unfold set_key. now destruct (status_store (shared c) !! m_name (mon c)). Qed.

Lemma step_mon_moves (env : nat → string → world) (c : cstate) :
  m_pc (mon c) ≠ MDead →
  (m_pc (mon c) = MAcquire → lock c = None) →
  snd (step_mon env c) ≠ None.
Proof.
  intros Hdead Hacq. unfold step_mon.
  destruct (m_pc (mon c)); try apply set_key_moves; try discriminate; try congruence.
  - destruct (WIFI_TARGETS !! m_idx (mon c)) as [[name ip_]|]; [|discriminate].
    destruct (probe _ _) as [e|[ok lat]]; discriminate.
  - now rewrite Hacq.
  - now destruct (history (shared c) !! m_name (mon c)).
Qed.

(** No thread waits while it holds the lock, so the threads never block
    each other for good: the scheduler never dies, the holder of the lock
    can always take its next step, and when the lock is free the scheduler
    and every request that has not yet returned can take theirs. *)
Theorem no_deadlock (env : nat → string → world) (sched : list tid) :
  let c := run env sched in
  m_pc (mon c) ≠ MDead ∧
  (∀ t, lock c = Some t → can_step env t c) ∧
  (lock c = None →
     can_step env Mon c ∧
     ∀ i, (∀ snap, reqs c !! i ≠ Some (RDone snap)) → can_step env (Req i) c).
Proof.
  intros c. destruct (run_inv env sched) as (Hloc & _ & [Hmon Hreq] & _).
  fold c in Hloc, Hmon, Hreq.
  assert (Hdead : m_pc (mon c) ≠ MDead).
  { intros E. unfold locals_ok in Hloc. now rewrite E in Hloc. }
  split; [exact Hdead|]. split.
  - intros [|i] Hlk; unfold can_step; cbn [step].
    + apply step_mon_moves; [exact Hdead|]. intros E.
      apply Hmon in Hlk. rewrite E in Hlk. discriminate.
    + apply Hreq in Hlk. unfold step_req.
      destruct Hlk as [->|[snap ->]]; cbn; discriminate.
  - intros Hlk. split; unfold can_step; cbn [step].
    + apply step_mon_moves; auto.
    + intros i Hnot. unfold step_req.
      destruct (reqs c !! i) as [[| |snap|snap]|] eqn:Hq; cbn [default from_option id].
      * rewrite Hlk. discriminate.
      * assert (lock c = Some (Req i)) by (apply Hreq; now left). congruence.
      * assert (lock c = Some (Req i)) by (apply Hreq; right; eauto). congruence.
      * now destruct (Hnot snap).
      * rewrite Hlk. discriminate.
Qed.

Lemma no_deadlock_witness :
  let c := run (fun _ _ => lively_world) [Req 0; Mon; Mon; Mon; Req 1] in
  lock c = Some (Req 0) ∧ can_step (fun _ _ => lively_world) (Req 0) c.
Proof.
  intros c.
  assert (Hlk : lock c = Some (Req 0)) by (vm_compute; reflexivity).
  split; [exact Hlk|].
  exact (proj1 (proj2 (no_deadlock (fun _ _ => lively_world)
                         [Req 0; Mon; Mon; Mon; Req 1])) (Req 0) Hlk).
Defined.

(** *** Responses are states of the sequential loop *)

Lemma store_seq_outside (env : nat → string → world) (m : mon_state) (sh : state) :
  locals_ok env m → shared_ok env m sh → in_critical (m_pc m) = false →
  seq_snapshot env (status_store sh).
Proof.
  intros Hloc (base & Hbase & Hsh) Hout. unfold seq_snapshot, api_status.
  destruct (m_pc m) eqn:Hpc; try discriminate.
  - (* MProbe *)
    unfold locals_ok in Hloc. rewrite Hpc in Hloc. subst sh.
    destruct (monitor_upto_inv env (m_tick m) (m_idx m) Hloc) as (st & Hst & Hinv).
    exists (m_tick m), (m_idx m), st. split; [exact Hloc|]. split; [exact Hst|].
    now rewrite (state_inv_unique env _ _ _ _ Hbase Hinv).
  - (* MAcquire *)
    assert (Hp : m_pc m ≠ MProbe) by (rewrite Hpc; discriminate).
    destruct (locals_ok_target env m Hloc Hp) as (Hidx & _). subst sh.
    assert (Hle : m_idx m ≤ length WIFI_TARGETS)
      by (apply lookup_lt_Some in Hidx; lia).
    destruct (monitor_upto_inv env (m_tick m) (m_idx m) Hle) as (st & Hst & Hinv).
    exists (m_tick m), (m_idx m), st. split; [exact Hle|]. split; [exact Hst|].
    now rewrite (state_inv_unique env _ _ _ _ Hbase Hinv).
  - (* MLastStatus *)
    assert (Hp : m_pc m ≠ MProbe) by (rewrite Hpc; discriminate).
    destruct (locals_ok_target env m Hloc Hp) as (Hidx & Hok & Hlat & Hst & Hts).
    destruct Hsh as (r0 & d & Hr0 & Hd & ->). cbn [status_store].
    assert (Hle : S (m_idx m) ≤ length WIFI_TARGETS)
      by (apply lookup_lt_Some in Hidx; lia).
    destruct (probe_target_inv env _ _ _ _ base Hbase Hidx) as (st' & Hstep & Hinv').
    rewrite (probe_target_eq _ _ _ _ _ _ Hr0 Hd) in Hstep. injection Hstep as <-.
    destruct (monitor_upto_inv env (m_tick m) (S (m_idx m)) Hle) as (st & Hst' & Hinv).
    exists (m_tick m), (S (m_idx m)), st. split; [exact Hle|]. split; [exact Hst'|].
    rewrite (state_inv_unique env _ _ _ _ Hinv Hinv'). cbn [status_store].
    unfold pending_record. rewrite Hpc, record_update_total.
    now rewrite Hst, Hok, Hlat, Hts.
  - (* MDead *)
    unfold locals_ok in Hloc. rewrite Hpc in Hloc. contradiction.
Qed.

Lemma step_mon_reqs (env : nat → string → world) (c : cstate) :
  reqs (fst (step_mon env c)) = reqs c.
Proof.
  unfold step_mon, set_key.
  destruct (m_pc (mon c)); try reflexivity;
    repeat match goal with
           | |- context [match ?x with _ => _ end] => destruct x
           end; reflexivity.
Qed.

Lemma step_snaps_seq (env : nat → string → world) (t : tid) (c : cstate) :
  conc_inv env c → snaps_seq env c → snaps_seq env (fst (step env t c)).
Proof.
  intros (Hloc & Hsh & Hlock & _) Hseq. destruct t as [|i]; cbn [step].
  - intros j snap. unfold response. rewrite step_mon_reqs. apply Hseq.
  - unfold step_req. pose proof Hlock as [_ Hreq].
    destruct (default RStart (reqs c !! i)) as [| |s|s] eqn:Hq.
    + destruct (lock c); cbn [fst]; [exact Hseq|].
      intros j snap. rewrite response_insert.
      destruct (decide (i = j)); [discriminate | apply Hseq].
    + assert (Hq' : reqs c !! i = Some RLocked)
        by (destruct (reqs c !! i) as [[]|]; cbn in Hq; congruence).
      assert (Hlk : lock c = Some (Req i)) by (apply Hreq; now left).
      cbn [fst]. intros j snap. rewrite response_insert.
      destruct (decide (i = j)); [|apply Hseq].
      intros [= <-]. apply (store_seq_outside env (mon c) (shared c) Hloc Hsh).
      apply (not_critical_unlocked c Hlock). rewrite Hlk. discriminate.
    + assert (Hq' : reqs c !! i = Some (RCopied s))
        by (destruct (reqs c !! i) as [[]|]; cbn in Hq; congruence).
      cbn [fst]. intros j snap. rewrite response_insert.
      destruct (decide (i = j)) as [<-|]; [|apply Hseq].
      intros [= <-]. apply (Hseq i s). unfold response. now rewrite Hq'.
    + exact Hseq.
Qed.

Lemma exec_snaps_seq (env : nat → string → world) (sched : list tid) :
  ∀ c, conc_inv env c → snaps_seq env c → snaps_seq env (fst (exec env sched c)).
Proof.
  induction sched as [|t sched IH]; intros c Hinv Hseq; cbn [exec]; [exact Hseq|].
  pose proof (proj1 (step_inv env t c Hinv)) as Hinv'.
  pose proof (step_snaps_seq env t c Hinv Hseq) as Hseq'.
  destruct (step env t c) as [c' e]. cbn [fst] in Hinv', Hseq'.
  specialize (IH c' Hinv' Hseq').
  now destruct (exec env sched c') as [c'' tr].
Qed.

(** Every response of [/api/status], in every interleaving, is the whole
    status map as the loop had it between two probes: the records of one
    response all belong to one and the same moment of the loop. *)
Theorem responses_are_loop_states (env : nat → string → world) (sched : list tid)
    (i : nat) (snap : gmap string status_record) :
  response (run env sched) i = Some snap →
  ∃ n idx st, idx ≤ length WIFI_TARGETS ∧ monitor_upto env n idx = inr st ∧
    snap = api_status st.
Proof.
  apply (exec_snaps_seq env sched init_cstate (conc_inv_init env)).
  intros j s. unfold response, init_cstate. cbn [reqs]. rewrite lookup_empty. discriminate.
Qed.

Lemma responses_are_loop_states_witness :
  let env := fun (_ : nat) (_ : string) => lively_world in
  let sched := [Mon; Mon; Mon; Req 0; Mon; Mon; Mon; Mon; Mon; Mon; Req 0; Req 0; Req 0] in
  ∃ snap n idx st, response (run env sched) 0 = Some snap ∧
    idx ≤ length WIFI_TARGETS ∧ monitor_upto env n idx = inr st ∧ snap = api_status st.
Proof.
  intros env sched.
  assert (H : is_Some (response (run env sched) 0 ≫= (fun s => s !! "Shakti_2.4GHz")))
    by (vm_compute; eauto).
  destruct H as [r H]. apply bind_Some in H as (snap & Hr & _).
  destruct (responses_are_loop_states env sched 0 snap Hr) as (n & idx & st & H1 & H2 & H3).
  exists snap, n, idx, st. auto.
Defined.

Lemma scheduler_refines_loop_witness :
  let env := fun (_ : nat) (_ : string) => lively_world in
  let sched := [Mon; Req 0; Req 0; Req 0; Mon; Mon; Mon; Mon; Mon; Mon; Mon; Mon; Req 1] in
  let c := run env sched in
  m_pc (mon c) = MProbe ∧ m_tick (mon c) = 0 ∧ m_idx (mon c) = 1 ∧
  monitor_upto env 0 1 = inr (shared c).
Proof.
  intros env sched c.
  assert (Hpc : m_pc (mon c) = MProbe) by (vm_compute; reflexivity).
  assert (Ht : m_tick (mon c) = 0) by (vm_compute; reflexivity).
  assert (Hi : m_idx (mon c) = 1) by (vm_compute; reflexivity).
  split; [exact Hpc|]. split; [exact Ht|]. split; [exact Hi|].
  pose proof (scheduler_refines_loop env sched Hpc) as H. fold c in H.
  now rewrite Ht, Hi in H.
Defined.

End ThreadsMore.
